(** * dino_chrome_bot: the perception-and-decision loop of [DinoBot]

    A shallow embedding of [src/dino_chrome_bot/main.py].

    Conventions of the embedding:
    - a Python [float] is a rational ([Q]); comparisons are the rational
      ones, and [int(.)] is truncation toward zero ([py_int]). Where the
      source truncates the result of float arithmetic to a number of
      pixels ([_resize_template], the columns of
      [_threshold_obstacle_frames]) every operation is rounded to the
      nearest double, ties to even ([round64]), since the truncation sees
      the rounding; the rows of the bands are halves of integers, which
      doubles hold, and the times, the scan scale and the pixel shares
      are exact rationals;
    - a grayscale frame is a list of rows of 8-bit intensities ([Z]);
    - numpy basic slicing [a[i:j]] follows Python's rules ([py_slice]):
      a negative bound counts from the end, and both bounds are then
      brought into [0, len];
    - OpenCV, mss and the clock are collaborators of the program: template
      matching, colour conversion, Otsu's threshold, resizing and
      [time.perf_counter] are the fields of the class [Collaborators];
      [cv2.threshold] is its documented pixel rule on an array that has
      pixels, and gives [None] for one that has none;
    - key presses and sleeps are recorded in a trace; diagnostic output
      ([print], [cv2.imshow]) is left out. *)

From Stdlib Require Import ZArith QArith Qround Qpower Qreduction.
From Stdlib Require Import List Bool Lia Lqa.
Import ListNotations.

Local Open Scope Q_scope.

(** ** Python values *)

(** [int(x)] on a float: truncation toward zero. *)
Definition py_int (x : Q) : Z :=
  if Qle_bool 0 x then Qfloor x else Qceiling x.

(** Exceptions the modelled code can raise, and results of calls.
    [AttributeError] is what an attribute of [None] raises. *)
Inductive exn : Type :=
| ZeroDivisionError
| AttributeError.

Inductive result (A : Type) : Type :=
| Ok (a : A)
| Raise (e : exn).
Arguments Ok {A} a.
Arguments Raise {A} e.

(** [a / b] on floats: Python raises on a zero divisor (numpy gives a
    value that is not a number; either way no ratio comes out). *)
Definition py_div (a b : Q) : result Q :=
  if Qeq_bool b 0 then Raise ZeroDivisionError else Ok (a / b).

(** [a < b] on floats. *)
Definition Qlt_bool (a b : Q) : bool := negb (Qle_bool b a).

(** *** Double precision

    The nearest integer, a tie going to the even neighbour. *)
Definition round_half_even (x : Q) : Z :=
  let f := Qfloor x in
  let d := x - inject_Z f in
  if Qlt_bool d (1 # 2) then f
  else if Qlt_bool (1 # 2) d then (f + 1)%Z
  else if Z.even f then f else (f + 1)%Z.

Definition pow2 (e : Z) : Q := 2 ^ e.

(** The exponent of a positive number:
    [2 ^ ilog2 q <= q < 2 ^ (ilog2 q + 1)]. *)
Definition ilog2 (q : Q) : Z :=
  let k := (Z.log2 (Qnum q) - Z.log2 (Zpos (Qden q)))%Z in
  if Qle_bool (pow2 k) q then k else (k - 1)%Z.

(** The nearest number with a 53-bit significand, for a positive [q]. *)
Definition round_pos (q : Q) : Q :=
  let e := (ilog2 q - 52)%Z in
  inject_Z (round_half_even (q / pow2 e)) * pow2 e.

(** The double nearest to [q] (IEEE 754 binary64, round to nearest, ties
    to even), for [q] in the range of the normal numbers. *)
Definition round64 (q : Q) : Q :=
  let r := Qred q in
  if Qlt_bool 0 r then round_pos r
  else if Qlt_bool r 0 then - round_pos (- r)
  else 0.

(** Half the gap between 1 and the next double. *)
Definition unit_roundoff : Q := 1 # 9007199254740992.

(** [float(z)], and [+], [-], [*] on floats; [a / b] on two integers. *)
Definition float_of_int (z : Z) : Q := round64 (inject_Z z).
Definition fadd (a b : Q) : Q := round64 (a + b).
Definition fsub (a b : Q) : Q := round64 (a - b).
Definition fmul (a b : Q) : Q := round64 (a * b).
Definition int_truediv (a b : Z) : Q := round64 (inject_Z a / inject_Z b).

(** Normalisation of one slice bound against a sequence of length [len]. *)
Definition py_slice_bound (len i : Z) : Z :=
  if (i <? 0)%Z then Z.max (i + len) 0 else Z.min i len.

(** [l[start:stop]] with integer bounds and step 1. *)
Definition py_slice {A : Type} (l : list A) (start stop : Z) : list A :=
  let len := Z.of_nat (length l) in
  let lo := py_slice_bound len start in
  let hi := py_slice_bound len stop in
  firstn (Z.to_nat (hi - lo)) (skipn (Z.to_nat lo) l).

(** ** Configuration: [DinoParams] *)

Record DinoParams : Type := mkDinoParams {
  confidence_threshold : Q;
  day_threshold : Q;
  obstacle_min_contrast : Q;
  obstacle_max_contrast : Q;
  late_game_time : Q;
  idle_reset_time : Q;
  duck_time : Q;
  post_jump_duck_sleep : Q;
  init_scale_w : Q;
  late_scale_w : Q
}.

(** The dataclass defaults. *)
Definition default_params : DinoParams := {|
  confidence_threshold := 8 # 10;
  day_threshold := 5 # 10;
  obstacle_min_contrast := 1 # 10;
  obstacle_max_contrast := 9 # 10;
  late_game_time := 30;
  idle_reset_time := 7;
  duck_time := 4 # 10;
  post_jump_duck_sleep := 2 # 100;
  init_scale_w := 15 # 10;
  late_scale_w := 4
|}.

(** ** Images *)

Definition gray_image : Type := list (list Z).
Definition bgr_image : Type := list (list (Z * Z * Z)).

(** [a.shape[0]] and [a.shape[1]] of a rectangular array. *)
Definition shape0 {A : Type} (a : list (list A)) : Z := Z.of_nat (length a).
Definition shape1 {A : Type} (a : list (list A)) : Z :=
  Z.of_nat (length (hd [] a)).

(** [a.size]: the number of elements. *)
Definition size {A : Type} (a : list (list A)) : Z :=
  Z.of_nat (length (concat a)).

(** [(a == 255).sum()]. *)
Definition count_255 (a : gray_image) : Z :=
  Z.of_nat (length (filter (fun p => (p =? 255)%Z) (concat a))).

(** [a[r0:r1, c0:c1]]. *)
Definition slice2 {A : Type} (a : list (list A)) (r0 r1 c0 c1 : Z)
  : list (list A) :=
  map (fun row => py_slice row c0 c1) (py_slice a r0 r1).

(** The pixel rule of [cv2.THRESH_BINARY] with [maxval = 255]: a pixel
    above [thresh] becomes 255, any other 0. *)
Definition binary_pixel (thresh p : Z) : Z :=
  if (thresh <? p)%Z then 255%Z else 0%Z.

Definition threshold_binary (thresh : Z) (src : gray_image) : gray_image :=
  map (map (binary_pixel thresh)) src.

(** The image returned by [cv2.threshold(src, thresh, 255,
    cv2.THRESH_BINARY)]: [None] for an array without pixels. *)
Definition cv2_threshold (thresh : Z) (src : gray_image)
  : option gray_image :=
  if (size src =? 0)%Z then None else Some (threshold_binary thresh src).

(** ** The scan scale: [DinoBot._get_dynamic_scale_w] *)

Definition _get_dynamic_scale_w (p : DinoParams) (elapsed_time : Q)
  : result Q :=
  if Qle_bool (late_game_time p) elapsed_time then
    Ok (late_scale_w p)
  else
    match py_div elapsed_time (late_game_time p) with
    | Raise e => Raise e
    | Ok ratio =>
        Ok (init_scale_w p + ratio * (late_scale_w p - init_scale_w p))
    end.

(** ** The obstacle test of [play]

    [is_obstacle_middle] and [is_obstacle_bottom] are the same chained
    comparison [min < contrast < max], which Python evaluates as
    [min < contrast and contrast < max]. *)
Definition is_obstacle (p : DinoParams) (contrast : Q) : bool :=
  Qlt_bool (obstacle_min_contrast p) contrast
  && Qlt_bool contrast (obstacle_max_contrast p).

(** ** Contrast ratios: [DinoBot._compute_contrasts]

    One frame of the loop body, when it is an array: an empty one gives
    [0.0], any other the share of its pixels that equal 255. *)
Definition contrast_of (f : gray_image) : result Q :=
  if (size f =? 0)%Z then Ok 0
  else py_div (inject_Z (count_255 f)) (inject_Z (size f)).

(** One frame of the loop body: [f.size] is read first, and [None] has no
    such attribute. *)
Definition frame_contrast (f : option gray_image) : result Q :=
  match f with
  | None => Raise AttributeError
  | Some a => contrast_of a
  end.

Fixpoint _compute_contrasts (frames : list (option gray_image))
  : result (list Q) :=
  match frames with
  | [] => Ok []
  | f :: rest =>
      match frame_contrast f with
      | Raise e => Raise e
      | Ok c =>
          match _compute_contrasts rest with
          | Raise e => Raise e
          | Ok cs => Ok (c :: cs)
          end
      end
  end.

(** ** Collaborators

    What the program gets from OpenCV and from the clock.
    - [match_template frame template] stands for
      [cv2.minMaxLoc(cv2.matchTemplate(frame, template, TM_CCOEFF_NORMED))]
      and gives the best score and its location [(x, y)];
    - [cvt_gray] is [cv2.cvtColor(., COLOR_BGR2GRAY)];
    - [otsu] is the threshold that [THRESH_OTSU] selects for a band;
    - [cv2_resize src (width, height) interpolation] is [cv2.resize];
    - [clock n] is the value of the [n]-th call of [time.perf_counter]. *)
Inductive interpolation : Type :=
| INTER_NEAREST
| INTER_LINEAR
| INTER_CUBIC
| INTER_AREA.

Class Collaborators : Type := {
  match_template : bgr_image -> bgr_image -> Q * (Z * Z);
  cvt_gray : bgr_image -> gray_image;
  otsu : gray_image -> Z;
  cv2_resize : bgr_image -> Z * Z -> interpolation -> bgr_image;
  clock : nat -> Q
}.

(** ** The bot *)

Record DinoBot : Type := mkDinoBot {
  params : DinoParams;
  template_day : option bgr_image;
  template_night : option bgr_image;
  skip_initialize : bool;
  top_left : Z * Z;
  template_h : Z;
  template_w : Z;
  last_button_push : Q;
  start_time : Q
}.

(** Resolution the templates were drawn for. *)
Definition orig_width : Z := 1920.
Definition orig_height : Z := 1080.

(** The size [_resize_template] asks [cv2.resize] for, given the size of
    the monitor ([mon["width"]], [mon["height"]]): a side is
    [max(1, int(n * scale))], the product being one of floats. *)
Definition scaled_length (n : Z) (scale : Q) : Z :=
  Z.max 1 (py_int (fmul (float_of_int n) scale)).

Definition new_width (screen_width : Z) (template : bgr_image) : Z :=
  let scale_w := int_truediv screen_width orig_width in
  scaled_length (shape1 template) scale_w.

Definition new_height (screen_height : Z) (template : bgr_image) : Z :=
  let scale_h := int_truediv screen_height orig_height in
  scaled_length (shape0 template) scale_h.

Definition _resize_template `{Collaborators} (screen_width screen_height : Z)
    (template : option bgr_image) : option bgr_image :=
  match template with
  | None => None
  | Some t =>
      Some (cv2_resize t (new_width screen_width t, new_height screen_height t)
                       INTER_AREA)
  end.

(** [DinoBot.__init__], from the two results of [cv2.imread] ([None] when
    the image is missing or cannot be decoded) and the monitor's size. The
    two clock reads are the first two of the run. *)
Definition __init__ `{Collaborators} (screen_width screen_height : Z)
    (p : DinoParams) (original_day original_night : option bgr_image)
  : result DinoBot :=
  Ok {| params := p;
        template_day :=
          _resize_template screen_width screen_height original_day;
        template_night :=
          _resize_template screen_width screen_height original_night;
        skip_initialize := false;
        top_left := (0, 0)%Z;
        template_h := 0;
        template_w := 0;
        last_button_push := clock 0;
        start_time := clock 1 |}.

(** *** Localisation: [DinoBot._find_dinosaur] *)

Record Match : Type := mkMatch {
  found : bool;
  max_val : Q;
  match_top_left : Z * Z;
  match_h : Z;
  match_w : Z
}.

(** One turn of the loop over [(template_night, template_day)]. *)
Definition try_template `{Collaborators} (frame_bgr : bgr_image)
    (best : Q * (Z * Z) * Z * Z) (template : option bgr_image)
  : Q * (Z * Z) * Z * Z :=
  match template with
  | None => best
  | Some t =>
      let '(max_val, _, _, _) := best in
      let '(local_max_val, local_max_loc) := match_template frame_bgr t in
      if Qlt_bool max_val local_max_val
      then (local_max_val, local_max_loc, shape0 t, shape1 t)
      else best
  end.

Definition _find_dinosaur `{Collaborators} (self : DinoBot)
    (frame_bgr : bgr_image) : Match :=
  let '(max_val, top_left, template_h, template_w) :=
    fold_left (try_template frame_bgr)
              [template_night self; template_day self]
              (0, (0, 0)%Z, 0%Z, 0%Z) in
  {| found := Qle_bool (confidence_threshold (params self)) max_val;
     max_val := max_val;
     match_top_left := top_left;
     match_h := template_h;
     match_w := template_w |}.

(** *** Scene classification: [DinoBot._is_day_scene] *)

Definition sky_region (self : DinoBot) (frame_gray : gray_image)
  : gray_image :=
  let '(x, y) := top_left self in
  let sky_y_start := Z.max (y - template_h self) 0 in
  let sky_y_end := y in
  py_slice frame_gray sky_y_start sky_y_end.

Definition _is_day_scene (self : DinoBot) (frame_gray : gray_image)
  : result bool :=
  let sky := sky_region self frame_gray in
  if (size sky =? 0)%Z then Ok false
  else
    match py_div (inject_Z (count_255 sky)) (inject_Z (size sky)) with
    | Raise e => Raise e
    | Ok white_ratio => Ok (Qlt_bool (day_threshold (params self)) white_ratio)
    end.

(** *** Obstacle bands: [DinoBot._threshold_obstacle_frames] *)

(** The enlarged vertical window around the character. *)
Definition new_top_left (self : DinoBot) : Q :=
  inject_Z (snd (top_left self)) - (1 # 2) * inject_Z (template_h self).
Definition new_h (self : DinoBot) : Q := (3 # 2) * inject_Z (template_h self).

(** Slice bounds of the two bands, as the source computes them. *)
Definition middle_rows (self : DinoBot) : Z * Z :=
  (py_int (new_top_left self + new_h self / 3),
   py_int (new_top_left self + 2 * new_h self / 3)).

Definition bottom_rows (self : DinoBot) : Z * Z :=
  (py_int (new_top_left self + 2 * new_h self / 3),
   py_int (new_top_left self + new_h self)).

Definition band_cols (self : DinoBot) (scale_w : Q) : Z * Z :=
  (py_int (fadd (float_of_int (fst (top_left self)))
                (fmul (fsub scale_w 1) (float_of_int (template_w self)))),
   py_int (fadd (float_of_int (fst (top_left self)))
                (fmul scale_w (float_of_int (template_w self))))).

Definition middle_obstacle_frame (self : DinoBot) (frame_gray : gray_image)
    (scale_w : Q) : gray_image :=
  slice2 frame_gray (fst (middle_rows self)) (snd (middle_rows self))
         (fst (band_cols self scale_w)) (snd (band_cols self scale_w)).

Definition bottom_obstacle_frame (self : DinoBot) (frame_gray : gray_image)
    (scale_w : Q) : gray_image :=
  slice2 frame_gray (fst (bottom_rows self)) (snd (bottom_rows self))
         (fst (band_cols self scale_w)) (snd (band_cols self scale_w)).

(** Day: fixed threshold 180. Night: [THRESH_BINARY + THRESH_OTSU], where
    the threshold passed (0) is replaced by Otsu's. *)
Definition binarize `{Collaborators} (is_day : bool) (band : gray_image)
  : option gray_image :=
  if is_day then cv2_threshold 180 band
  else cv2_threshold (otsu band) band.

Definition _threshold_obstacle_frames `{Collaborators} (self : DinoBot)
    (frame_gray : gray_image) (is_day : bool) (scale_w : Q)
  : option gray_image * option gray_image :=
  (binarize is_day (middle_obstacle_frame self frame_gray scale_w),
   binarize is_day (bottom_obstacle_frame self frame_gray scale_w)).

(** ** The control loop: [DinoBot.play] *)

(** What the bot sends to the key sink, and its timed pauses. *)
Inductive key : Type :=
| space
| down.

Inductive event : Type :=
| Press (k : key)
| KeyDown (k : key)
| KeyUp (k : key)
| Sleep (seconds : Q).

(** The perception methods a tick calls, logged in call order. *)
Inductive call : Type :=
| Call_find_dinosaur
| Call_is_day_scene
| Call_threshold_obstacle_frames
| Call_compute_contrasts.

(** The running program: the bot's fields, how many times the clock has
    been read, the keys sent so far and the calls made so far. *)
Record machine : Type := mkMachine {
  self : DinoBot;
  reads : nat;
  events : list event;
  calls : list call
}.

(** Computations of the loop: they change the machine and return a value
    or raise; what was done before a raise stays done. *)
Definition M (A : Type) : Type := machine -> machine * result A.

Definition ret {A : Type} (a : A) : M A := fun m => (m, Ok a).

Definition bind {A B : Type} (c : M A) (k : A -> M B) : M B :=
  fun m =>
    match c m with
    | (m1, Ok a) => k a m1
    | (m1, Raise e) => (m1, Raise e)
    end.

Declare Scope dino_scope.
Delimit Scope dino_scope with dino.
Notation "x <- c ;; k" := (bind c (fun x => k))
  (at level 61, c at next level, right associativity) : dino_scope.
Notation "c ;; k" := (bind c (fun _ => k))
  (at level 61, right associativity) : dino_scope.
Local Open Scope dino_scope.

Definition lift {A : Type} (r : result A) : M A := fun m => (m, r).

Definition get_self : M DinoBot := fun m => (m, Ok (self m)).

Definition set_self (f : DinoBot -> DinoBot) : M unit :=
  fun m => ({| self := f (self m); reads := reads m;
               events := events m; calls := calls m |}, Ok tt).

(** [time.perf_counter()]. *)
Definition perf_counter `{Collaborators} : M Q :=
  fun m => ({| self := self m; reads := S (reads m);
               events := events m; calls := calls m |}, Ok (clock (reads m))).

Definition emit (e : event) : M unit :=
  fun m => ({| self := self m; reads := reads m;
               events := events m ++ [e]; calls := calls m |}, Ok tt).

Definition log (c : call) : M unit :=
  fun m => ({| self := self m; reads := reads m;
               events := events m; calls := calls m ++ [c] |}, Ok tt).

(** Assignments to the fields of [self]. *)
Definition with_character (mt : Match) (s : DinoBot) : DinoBot :=
  {| params := params s; template_day := template_day s;
     template_night := template_night s;
     skip_initialize := skip_initialize s;
     top_left := match_top_left mt;
     template_h := match_h mt; template_w := match_w mt;
     last_button_push := last_button_push s; start_time := start_time s |}.

Definition with_skip_initialize (b : bool) (s : DinoBot) : DinoBot :=
  {| params := params s; template_day := template_day s;
     template_night := template_night s;
     skip_initialize := b;
     top_left := top_left s;
     template_h := template_h s; template_w := template_w s;
     last_button_push := last_button_push s; start_time := start_time s |}.

Definition with_last_button_push (t : Q) (s : DinoBot) : DinoBot :=
  {| params := params s; template_day := template_day s;
     template_night := template_night s;
     skip_initialize := skip_initialize s;
     top_left := top_left s;
     template_h := template_h s; template_w := template_w s;
     last_button_push := t; start_time := start_time s |}.

Definition with_start_time (t : Q) (s : DinoBot) : DinoBot :=
  {| params := params s; template_day := template_day s;
     template_night := template_night s;
     skip_initialize := skip_initialize s;
     top_left := top_left s;
     template_h := template_h s; template_w := template_w s;
     last_button_push := last_button_push s; start_time := t |}.

(** *** 1. Finding the dinosaur (the branch [not self.skip_initialize]) *)
Definition searching_tick `{Collaborators} (frame_bgr : bgr_image) : M unit :=
  s <- get_self ;;
  log Call_find_dinosaur ;;
  let mt := _find_dinosaur s frame_bgr in
  set_self (with_character mt) ;;
  if found mt then
    emit (Press space) ;;
    set_self (with_skip_initialize true) ;;
    t <- perf_counter ;;
    set_self (with_last_button_push t) ;;
    t' <- perf_counter ;;
    set_self (with_start_time t')
  else
    ret tt.

(** *** 2. Obstacle detection *)

(** What a tick has measured when it reaches the action block. *)
Record observation : Type := mkObservation {
  elapsed_time : Q;
  now : Q;
  is_obstacle_middle : bool;
  is_obstacle_bottom : bool
}.

Definition perceive `{Collaborators} (frame_bgr : bgr_image)
  : M observation :=
  s <- get_self ;;
  let frame_gray := cvt_gray frame_bgr in
  log Call_is_day_scene ;;
  day_scene <- lift (_is_day_scene s frame_gray) ;;
  t <- perf_counter ;;
  let elapsed_time := t - start_time s in
  scale_w <- lift (_get_dynamic_scale_w (params s) elapsed_time) ;;
  log Call_threshold_obstacle_frames ;;
  let '(middle_thresh_frame, bottom_thresh_frame) :=
    _threshold_obstacle_frames s frame_gray day_scene scale_w in
  log Call_compute_contrasts ;;
  contrasts <-
    lift (_compute_contrasts [middle_thresh_frame; bottom_thresh_frame]) ;;
  let middle_contrast := nth 0 contrasts 0 in
  let bottom_contrast := nth 1 contrasts 0 in
  now <- perf_counter ;;
  ret {| elapsed_time := elapsed_time;
         now := now;
         is_obstacle_middle := is_obstacle (params s) middle_contrast;
         is_obstacle_bottom := is_obstacle (params s) bottom_contrast |}.

(** *** 3. Input action *)
Definition select_action (o : observation) : M unit :=
  s <- get_self ;;
  if is_obstacle_bottom o then
    (if Qle_bool (late_game_time (params s)) (elapsed_time o) then
       emit (KeyDown space) ;;
       emit (KeyUp space) ;;
       emit (Sleep (post_jump_duck_sleep (params s))) ;;
       emit (KeyDown down) ;;
       emit (KeyUp down)
     else
       emit (Press space)) ;;
    set_self (with_last_button_push (now o))
  else if is_obstacle_middle o then
    emit (KeyDown down) ;;
    emit (Sleep (duck_time (params s))) ;;
    emit (KeyUp down) ;;
    set_self (with_last_button_push (now o))
  else
    ret tt.

(** *** The idle check that closes a tick *)
Definition idle_reset `{Collaborators} (now : Q) : M unit :=
  s <- get_self ;;
  if Qlt_bool (idle_reset_time (params s)) (now - last_button_push s) then
    emit (Press space) ;;
    t <- perf_counter ;;
    set_self (with_start_time t) ;;
    set_self (with_last_button_push now)
  else
    ret tt.

(** One turn of [while True], on the frame just grabbed. *)
Definition tick `{Collaborators} (frame_bgr : bgr_image) : M unit :=
  s <- get_self ;;
  if negb (skip_initialize s) then
    searching_tick frame_bgr
  else
    o <- perceive frame_bgr ;;
    select_action o ;;
    idle_reset (now o).

(** The loop over the frames grabbed so far: the source never leaves the
    loop, so a run is observed through its finite prefixes. *)
Fixpoint play `{Collaborators} (frames : list bgr_image) : M unit :=
  match frames with
  | [] => ret tt
  | frame_bgr :: rest => tick frame_bgr ;; play rest
  end.

(** The cached character: position and template size. *)
Definition character (s : DinoBot) : (Z * Z) * Z * Z :=
  (top_left s, template_h s, template_w s).

(** The calls that belong to scene classification and obstacle
    evaluation, as opposed to localisation. *)
Definition is_evaluation (c : call) : bool :=
  match c with
  | Call_find_dinosaur => false
  | Call_is_day_scene
  | Call_threshold_obstacle_frames
  | Call_compute_contrasts => true
  end.

(** What [_find_dinosaur] returns when its loop meets one template only. *)
Definition find_with `{Collaborators} (p : DinoParams) (frame_bgr : bgr_image)
    (template : bgr_image) : Match :=
  let '(score, loc) := match_template frame_bgr template in
  if Qlt_bool 0 score
  then {| found := Qle_bool (confidence_threshold p) score;
          max_val := score; match_top_left := loc;
          match_h := shape0 template; match_w := shape1 template |}
  else {| found := Qle_bool (confidence_threshold p) 0;
          max_val := 0; match_top_left := (0, 0)%Z;
          match_h := 0; match_w := 0 |}.

(** ** The specification's reading of three operations

    These follow the words of the specification, not the source; the
    theorems below compare them with the definitions above. *)

(** "Clip to valid bounds": each bound is brought into [0, len] as a pixel
    coordinate, a negative one becoming 0. *)
Definition clip_slice {A : Type} (l : list A) (start stop : Z) : list A :=
  let len := Z.of_nat (length l) in
  let lo := Z.min (Z.max start 0) len in
  let hi := Z.min (Z.max stop 0) len in
  firstn (Z.to_nat (hi - lo)) (skipn (Z.to_nat lo) l).

Definition clip_slice2 {A : Type} (a : list (list A)) (r0 r1 c0 c1 : Z)
  : list (list A) :=
  map (fun row => clip_slice row c0 c1) (clip_slice a r0 r1).

(** "round": the nearest integer, a tie going to the even neighbour as
    Python's [round] does. *)
Definition py_round (x : Q) : Z := round_half_even x.

Definition spec_new_width (screen_width : Z) (template : bgr_image) : Z :=
  Z.max 1 (py_round (inject_Z (shape1 template)
                     * (inject_Z screen_width / inject_Z orig_width))).

Definition spec_new_height (screen_height : Z) (template : bgr_image) : Z :=
  Z.max 1 (py_round (inject_Z (shape0 template)
                     * (inject_Z screen_height / inject_Z orig_height))).

(** "Fatal at startup when no template loads": construction fails unless
    one of the two images was read. *)
Definition spec_startup_fails (original_day original_night : option bgr_image)
  : bool :=
  match original_day, original_night with
  | None, None => true
  | _, _ => false
  end.

(** ** Sample data

    A stand-in for the collaborators and a small scene, on which the
    definitions above can be run. The frame is 4 rows by 8 columns; the
    character is the 2 by 2 box whose top-left corner is at column 0,
    row 2. *)
Module Sample.

Local Open Scope Z_scope.

Definition gray_of (px : Z * Z * Z) : Z := let '(_, g, _) := px in g.
Definition px (v : Z) : Z * Z * Z := (v, v, v).

Definition ticking_clock (origin : Q) (n : nat) : Q :=
  (origin + inject_Z (Z.of_nat n))%Q.

(** The character is reported at (0, 2) with score 1 wherever the frame
    has a row 2, and nowhere (score 0) otherwise. *)
Definition locate (frame template : bgr_image) : Q * (Z * Z) :=
  if 2 <? shape0 frame then (1%Q, (0, 2)) else (0%Q, (0, 0)).

Definition collaborators (origin : Q) : Collaborators := {|
  match_template := locate;
  cvt_gray := map (map gray_of);
  otsu := fun _ => 127;
  cv2_resize := fun src _ _ => src;
  clock := ticking_clock origin
|}.

Definition template : bgr_image :=
  [[px 83; px 83]; [px 83; px 83]].

Definition row (l : list Z) : list (Z * Z * Z) := map px l.

(** Bright sky, nothing ahead of the character. *)
Definition clear_frame : bgr_image :=
  [row [255; 255; 255; 255; 255; 255; 255; 255];
   row [255; 255; 255; 255; 255; 255; 255; 255];
   row [83; 83; 255; 255; 255; 255; 255; 255];
   row [83; 83; 255; 255; 255; 255; 255; 255]].

(** A ground obstacle covering half of the bottom band at scale 4
    (columns 6 and 7 of row 3). *)
Definition cactus_frame : bgr_image :=
  [row [255; 255; 255; 255; 255; 255; 255; 255];
   row [255; 255; 255; 255; 255; 255; 255; 255];
   row [83; 83; 255; 255; 255; 255; 255; 255];
   row [83; 83; 255; 255; 255; 255; 83; 255]].

(** A flying obstacle covering half of the middle band at scale 4
    (columns 6 and 7 of row 2). *)
Definition bird_frame : bgr_image :=
  [row [255; 255; 255; 255; 255; 255; 255; 255];
   row [255; 255; 255; 255; 255; 255; 255; 255];
   row [83; 83; 255; 255; 255; 255; 83; 255];
   row [83; 83; 255; 255; 255; 255; 255; 255]].

Definition bot (p : DinoParams) (locked : bool) (pushed started : Q)
  : DinoBot := {|
  params := p;
  template_day := Some template;
  template_night := None;
  skip_initialize := locked;
  top_left := if locked then (0, 2) else (0, 0);
  template_h := if locked then 2 else 0;
  template_w := if locked then 2 else 0;
  last_button_push := pushed;
  start_time := started
|}.

Definition machine_of (b : DinoBot) : machine :=
  {| self := b; reads := 0%nat; events := []; calls := [] |}.

(** A locked bot whose character box is given. *)
Definition bot_at (x y h w : Z) : DinoBot := {|
  params := default_params;
  template_day := Some template;
  template_night := None;
  skip_initialize := true;
  top_left := (x, y);
  template_h := h;
  template_w := w;
  last_button_push := 0%Q;
  start_time := 0%Q
|}.

(** A bot built when neither image could be read. *)
Definition blind_bot : DinoBot := {|
  params := default_params;
  template_day := None;
  template_night := None;
  skip_initialize := false;
  top_left := (0, 0);
  template_h := 0;
  template_w := 0;
  last_button_push := 0%Q;
  start_time := 0%Q
|}.


(** A template five pixels wide and one high. *)
Definition strip : bgr_image := [[px 0; px 0; px 0; px 0; px 0]].

End Sample.

(** ** Observers of bands and of runs *)

(** The number of pixels strictly brighter than [t]. *)
Definition count_above (t : Z) (a : gray_image) : Z :=
  Z.of_nat (length (filter (fun p => (t <? p)%Z) (concat a))).

(** The share of the pixels of a band that are strictly brighter than
    [t]. *)
Definition share_above (t : Z) (band : gray_image) : Q :=
  inject_Z (count_above t band) / inject_Z (size band).

(** The pixel of row [i] and column [j], when the array has one. *)
Definition pixel {A : Type} (a : list (list A)) (i j : nat) : option A :=
  match nth_error a i with
  | Some row => nth_error row j
  | None => None
  end.

(** The three things the loop ever does with the keyboard. *)
Definition jump_press : list event := [Press space].

Definition jump_then_duck (p : DinoParams) : list event :=
  [KeyDown space; KeyUp space; Sleep (post_jump_duck_sleep p);
   KeyDown down; KeyUp down].

Definition duck_hold (p : DinoParams) : list event :=
  [KeyDown down; Sleep (duck_time p); KeyUp down].

Definition is_gesture (p : DinoParams) (g : list event) : Prop :=
  g = jump_press \/ g = jump_then_duck p \/ g = duck_hold p.

(** Which of the two keys are down, as (space, down), after an event. *)
Definition key_step (st : bool * bool) (e : event) : bool * bool :=
  match e with
  | Press space => (false, snd st)
  | Press down => (fst st, false)
  | KeyDown space => (true, snd st)
  | KeyDown down => (fst st, true)
  | KeyUp space => (false, snd st)
  | KeyUp down => (fst st, false)
  | Sleep _ => st
  end.

Definition keys_down (evs : list event) : bool * bool :=
  fold_left key_step evs (false, false).


(** The templates [_find_dinosaur] has to try. *)
Definition loaded (s : DinoBot) (t : bgr_image) : Prop :=
  template_night s = Some t \/ template_day s = Some t.

(** ** Opening the browser: [DinoBot.open_chrome]

    [platform.system()] and the [webbrowser] module are inputs:
    [browser app_path url] tells whether
    [webbrowser.get(app_path).open(url)] went through without
    [webbrowser.Error]. The value returned lists what was handed to
    [webbrowser], in order. *)
From Stdlib Require Ascii String.

Module Chrome.

Import Ascii String.
Local Open Scope string_scope.


(** [str.lower] on ASCII text. *)
Definition lower_ascii (c : ascii) : ascii :=
  let n := nat_of_ascii c in
  if ((65 <=? n) && (n <=? 90))%nat then ascii_of_nat (n + 32) else c.

Fixpoint lower (s : string) : string :=
  match s with
  | EmptyString => EmptyString
  | String c rest => String (lower_ascii c) (lower rest)
  end.

(** [needle in hay]. *)
Fixpoint contains (needle hay : string) : bool :=
  if prefix needle hay then true
  else
    match hay with
    | EmptyString => false
    | String _ rest => contains needle rest
    end.

Definition windows_command : string :=
  "C:\Program Files\Google\Chrome\Application\chrome.exe %s".
Definition mac_command : string :=
  "open -a /Applications/Google\ Chrome.app %s".
Definition linux_command : string := "google-chrome %s".

(** The branch on [platform.system().lower()], in the order of the
    source. *)
Definition guess_app_path (system : string) : option string :=
  let system_name := lower system in
  if contains "win" system_name then Some windows_command
  else if contains "darwin" system_name then Some mac_command
  else if contains "linux" system_name then Some linux_command
  else None.


End Chrome.

(** ** More sample data *)
Module More.

(** A frame too short to hold the character: nothing is found on it. *)
Definition blank_frame : bgr_image := [Sample.row [255; 255]%Z].

(** A searching bot with both templates. *)
Definition two_template_bot : DinoBot := {|
  params := default_params;
  template_day := Some Sample.strip;
  template_night := Some Sample.template;
  skip_initialize := false;
  top_left := (0, 0)%Z;
  template_h := 0;
  template_w := 0;
  last_button_push := 0;
  start_time := 0
|}.


(** A bright gray frame of 4 rows and 24 columns. *)
Definition wide_frame : gray_image := repeat (repeat 255%Z 24) 4.

(** The double 1.5833333333333333: what [1.5 + (1.0 / 30.0) * 2.5] is in
    double precision, the scan scale of the default parameters one second
    into a run. *)
Definition scale_after_one_second : Q :=
  7130699410003285 # 4503599627370496.

(** A template 90 pixels wide and one high. *)
Definition banner : bgr_image := [repeat (Sample.px 0%Z) 90].



End More.

(** * Properties *)

(** ** Comparisons and division on rationals *)

Lemma Qlt_bool_iff a b : Qlt_bool a b = true <-> a < b.
Proof.
  unfold Qlt_bool. rewrite negb_true_iff.
  split; intro H.
  - apply Qnot_le_lt. intro Hle. apply Qle_bool_iff in Hle. congruence.
  - destruct (Qle_bool b a) eqn:E; [|reflexivity].
    apply Qle_bool_iff in E. lra.
Qed.

Lemma Qle_bool_false_iff a b : Qle_bool a b = false <-> b < a.
Proof.
  split; intro H.
  - apply Qnot_le_lt. intro Hle. apply Qle_bool_iff in Hle. congruence.
  - destruct (Qle_bool a b) eqn:E; [|reflexivity].
    apply Qle_bool_iff in E. lra.
Qed.

Lemma py_div_ok a b : ~ b == 0 -> py_div a b = Ok (a / b).
Proof.
  intro Hb. unfold py_div. destruct (Qeq_bool b 0) eqn:E; [|reflexivity].
  apply Qeq_bool_iff in E. contradiction.
Qed.





Lemma Qlt_bool_false_iff a b : Qlt_bool a b = false <-> b <= a.
Proof.
  unfold Qlt_bool. rewrite negb_false_iff. apply Qle_bool_iff.
Qed.


Ltac qbool :=
  repeat match goal with
  | H : Qlt_bool _ _ = true |- _ => apply Qlt_bool_iff in H
  | H : Qlt_bool _ _ = false |- _ => apply Qlt_bool_false_iff in H
  | H : Qle_bool _ _ = true |- _ => apply Qle_bool_iff in H
  | H : Qle_bool _ _ = false |- _ => apply Qle_bool_false_iff in H
  end.

(** ** Double precision *)

(** Powers of two. *)
Lemma pow2_pos e : 0 < pow2 e.
Proof. apply Qpower_0_lt. reflexivity. Qed.

Lemma pow2_plus a b : pow2 (a + b) == pow2 a * pow2 b.
Proof. apply Qpower_plus. discriminate. Qed.

Lemma pow2_le a b : (a <= b)%Z -> pow2 a <= pow2 b.
Proof. intro H. apply Qpower_le_compat_l; [assumption | discriminate]. Qed.

Lemma pow2_lt_inv a b : pow2 a < pow2 b -> (a < b)%Z.
Proof.
  intro H. apply (Qpower_lt_compat_l_inv 2); [assumption | reflexivity].
Qed.

Lemma pow2_Z n : (0 <= n)%Z -> pow2 n == inject_Z (2 ^ n).
Proof. intro H. unfold pow2. now rewrite Zpower_Qpower. Qed.

Lemma pow2_succ a : pow2 (a + 1) == 2 * pow2 a.
Proof. rewrite pow2_plus. change (pow2 1) with 2. ring. Qed.

(** The nearest integer. *)
Lemma rhe_bounds x :
  x - (1 # 2) <= inject_Z (round_half_even x)
  /\ inject_Z (round_half_even x) <= x + (1 # 2).
Proof.
  unfold round_half_even.
  pose proof (Qfloor_le x) as Hl. pose proof (Qlt_floor x) as Hu.
  rewrite inject_Z_plus in Hu. change (inject_Z 1) with 1 in Hu.
  destruct (Qlt_bool _ _) eqn:E1; qbool.
  - lra.
  - destruct (Qlt_bool (1 # 2) _) eqn:E2; qbool.
    + rewrite inject_Z_plus. change (inject_Z 1) with 1. lra.
    + destruct (Z.even _).
      * lra.
      * rewrite inject_Z_plus. change (inject_Z 1) with 1. lra.
Qed.

Lemma rhe_int x (m : Z) : x == inject_Z m -> round_half_even x = m.
Proof.
  intro E. unfold round_half_even.
  rewrite (Qfloor_comp _ _ E), Qfloor_Z.
  replace (Qlt_bool (x - inject_Z m) (1 # 2)) with true; [reflexivity|].
  symmetry. apply Qlt_bool_iff. lra.
Qed.

Lemma Qfloor_lt_succ x y :
  x <= y -> (Qfloor x < Qfloor y)%Z \/ (Qfloor x = Qfloor y).
Proof. intro H. apply Qfloor_resp_le in H. lia. Qed.

Lemma rhe_mono x y : x <= y -> (round_half_even x <= round_half_even y)%Z.
Proof.
  intro H.
  assert (Hx : (Qfloor x <= round_half_even x <= Qfloor x + 1)%Z).
  { unfold round_half_even.
    destruct (Qlt_bool _ _); [lia|]. destruct (Qlt_bool _ _); [lia|].
    destruct (Z.even _); lia. }
  assert (Hy : (Qfloor y <= round_half_even y <= Qfloor y + 1)%Z).
  { unfold round_half_even.
    destruct (Qlt_bool _ _); [lia|]. destruct (Qlt_bool _ _); [lia|].
    destruct (Z.even _); lia. }
  destruct (Qfloor_lt_succ x y H) as [Hlt|Heq]; [lia|].
  unfold round_half_even. rewrite Heq.
  destruct (Qlt_bool (x - _) _) eqn:X1; qbool.
  - destruct (Qlt_bool (y - _) _); [lia|].
    destruct (Qlt_bool _ (y - _)); [lia|].
    destruct (Z.even _); lia.
  - destruct (Qlt_bool (y - _) (1 # 2)) eqn:Y1; qbool; [lra|].
    destruct (Qlt_bool (1 # 2) (x - _)) eqn:X2; qbool.
    + destruct (Qlt_bool (1 # 2) (y - _)) eqn:Y2; qbool; [lia | lra].
    + destruct (Qlt_bool (1 # 2) (y - _)) eqn:Y2; qbool.
      * destruct (Z.even _); lia.
      * lia.
Qed.

Lemma Zlog2_bounds n :
  (0 < n)%Z ->
  pow2 (Z.log2 n) <= inject_Z n /\ inject_Z n < pow2 (Z.log2 n + 1).
Proof.
  intro H. destruct (Z.log2_spec n H) as [Hl Hu].
  pose proof (Z.log2_nonneg n).
  rewrite !pow2_Z by lia. split.
  - now rewrite <- Zle_Qle.
  - rewrite <- Zlt_Qlt.
    replace (Z.log2 n + 1)%Z with (Z.succ (Z.log2 n)) by lia. exact Hu.
Qed.

Lemma ilog2_spec q : 0 < q -> pow2 (ilog2 q) <= q /\ q < pow2 (ilog2 q + 1).
Proof.
  intro Hq. destruct q as [n d].
  assert (Hn : (0 < n)%Z) by (unfold Qlt in Hq; simpl in Hq; lia).
  unfold ilog2. cbn [Qnum Qden].
  destruct (Zlog2_bounds n Hn) as [An Bn].
  destruct (Zlog2_bounds (Zpos d) eq_refl) as [Ad Bd].
  set (a := Z.log2 n) in *. set (b := Z.log2 (Zpos d)) in *.
  assert (Eq : (n # d) * inject_Z (Zpos d) == inject_Z n).
  { rewrite (Qmake_Qdiv n d). field. discriminate. }
  assert (Ek : pow2 (a - b) * pow2 b == pow2 a).
  { rewrite <- pow2_plus. replace (a - b + b)%Z with a by lia. reflexivity. }
  rewrite pow2_succ in Bn, Bd.
  pose proof (pow2_pos (a - b)) as Pk. pose proof (pow2_pos b) as Pb.
  set (q := n # d) in *. set (D := inject_Z (Zpos d)) in *.
  set (N := inject_Z n) in *.
  destruct (Qle_bool (pow2 (a - b)) q) eqn:T; qbool.
  - split; [assumption|]. rewrite pow2_succ.
    apply Qnot_le_lt. intro C.
    assert (0 <= (q - 2 * pow2 (a - b)) * D) by (apply Qmult_le_0_compat; lra).
    assert (0 <= pow2 (a - b) * (D - pow2 b)) by (apply Qmult_le_0_compat; lra).
    lra.
  - replace (a - b - 1 + 1)%Z with (a - b)%Z by lia.
    split; [|assumption].
    assert (E2 : pow2 (a - b) == 2 * pow2 (a - b - 1)).
    { rewrite <- pow2_succ. replace (a - b - 1 + 1)%Z with (a - b)%Z by lia.
      reflexivity. }
    apply Qnot_lt_le. intro C.
    assert (0 <= (pow2 (a - b - 1) - q) * D) by (apply Qmult_le_0_compat; lra).
    assert (0 <= pow2 (a - b - 1) * (2 * pow2 b - D))
      by (apply Qmult_le_0_compat; lra).
    pose proof (pow2_pos (a - b - 1)).
    assert (0 < (pow2 (a - b - 1) - q) * D
            \/ 0 < pow2 (a - b - 1) * (2 * pow2 b - D)).
    { right. apply Qmult_lt_0_compat; lra. }
    rewrite E2 in Ek. lra.
Qed.

Lemma ilog2_mono a b : 0 < a -> a <= b -> (ilog2 a <= ilog2 b)%Z.
Proof.
  intros Ha Hab.
  destruct (ilog2_spec a Ha) as [La Ua].
  destruct (ilog2_spec b) as [Lb Ub]; [lra|].
  assert (pow2 (ilog2 a) < pow2 (ilog2 b + 1)) by lra.
  apply pow2_lt_inv in H. lia.
Qed.

(** The significand of a positive number, scaled to 53 bits. *)
Lemma mantissa_range q :
  0 < q ->
  let e := (ilog2 q - 52)%Z in
  pow2 52 <= q / pow2 e /\ q / pow2 e < pow2 53
  /\ pow2 e * pow2 52 == pow2 (ilog2 q).
Proof.
  intros Hq e. destruct (ilog2_spec q Hq) as [L U].
  pose proof (pow2_pos e) as Pe.
  assert (E : pow2 e * pow2 52 == pow2 (ilog2 q)).
  { rewrite <- pow2_plus. unfold e.
    replace (ilog2 q - 52 + 52)%Z with (ilog2 q) by lia. reflexivity. }
  rewrite pow2_succ in U.
  repeat split; [| |exact E].
  - apply Qle_shift_div_l; [assumption|].
    rewrite Qmult_comm. rewrite E. assumption.
  - apply Qlt_shift_div_r; [assumption|].
    change (pow2 53) with (2 * pow2 52).
    assert (2 * pow2 52 * pow2 e == 2 * (pow2 e * pow2 52)) by ring.
    rewrite H, E. assumption.
Qed.

Lemma round_pos_range q :
  0 < q ->
  pow2 (ilog2 q) <= round_pos q /\ round_pos q <= pow2 (ilog2 q + 1).
Proof.
  intro Hq. destruct (mantissa_range q Hq) as (L & U & E).
  cbv zeta in L, U, E. unfold round_pos.
  set (e := (ilog2 q - 52)%Z) in *. set (x := q / pow2 e) in *.
  pose proof (pow2_pos e) as Pe.
  assert (M1 : (2 ^ 52 <= round_half_even x)%Z).
  { rewrite <- (rhe_int (pow2 52) (2 ^ 52)) by reflexivity.
    now apply rhe_mono. }
  assert (M2 : (round_half_even x <= 2 ^ 53)%Z).
  { rewrite <- (rhe_int (pow2 53) (2 ^ 53)) by reflexivity.
    apply rhe_mono. lra. }
  rewrite Zle_Qle in M1, M2.
  change (inject_Z (2 ^ 52)) with (pow2 52) in M1.
  change (inject_Z (2 ^ 53)) with (2 * pow2 52) in M2.
  rewrite pow2_succ, <- E. split.
  - rewrite Qmult_comm. apply Qmult_le_compat_r; lra.
  - assert (inject_Z (round_half_even x) * pow2 e <= 2 * pow2 52 * pow2 e)
      by (apply Qmult_le_compat_r; lra).
    lra.
Qed.

Lemma round_pos_mono a b : 0 < a -> a <= b -> round_pos a <= round_pos b.
Proof.
  intros Ha Hab. assert (Hb : 0 < b) by lra.
  pose proof (ilog2_mono a b Ha Hab) as Hk.
  destruct (Z.eq_dec (ilog2 a) (ilog2 b)) as [E|N].
  - unfold round_pos. rewrite E.
    pose proof (pow2_pos (ilog2 b - 52)) as Pe.
    apply Qmult_le_compat_r; [|lra].
    rewrite <- Zle_Qle. apply rhe_mono.
    unfold Qdiv. apply Qmult_le_compat_r; [assumption|].
    apply Qlt_le_weak, Qinv_lt_0_compat, Pe.
  - destruct (round_pos_range a Ha) as [_ Ua].
    destruct (round_pos_range b Hb) as [Lb _].
    assert (pow2 (ilog2 a + 1) <= pow2 (ilog2 b)) by (apply pow2_le; lia).
    lra.
Qed.

Lemma round_pos_error q :
  0 < q ->
  q * (1 - unit_roundoff) <= round_pos q
  /\ round_pos q <= q * (1 + unit_roundoff).
Proof.
  intro Hq. destruct (mantissa_range q Hq) as (L & U & E).
  destruct (ilog2_spec q Hq) as [Lq _].
  cbv zeta in L, U, E. unfold round_pos.
  set (e := (ilog2 q - 52)%Z) in *. set (x := q / pow2 e) in *.
  pose proof (pow2_pos e) as Pe.
  destruct (rhe_bounds x) as [B1 B2].
  assert (Ex : x * pow2 e == q) by (unfold x; field; lra).
  assert (H1 : (x - (1 # 2)) * pow2 e <= inject_Z (round_half_even x) * pow2 e)
    by (apply Qmult_le_compat_r; lra).
  assert (H2 : inject_Z (round_half_even x) * pow2 e <= (x + (1 # 2)) * pow2 e)
    by (apply Qmult_le_compat_r; lra).
  assert (Hu : pow2 e * (1 # 2) <= q * unit_roundoff).
  { assert (pow2 e * (1 # 2) == pow2 (ilog2 q) * unit_roundoff).
    { rewrite <- E. unfold unit_roundoff.
      change (pow2 52) with (inject_Z 4503599627370496). 
      unfold Qeq. simpl. lia. }
    rewrite H. apply Qmult_le_compat_r; [assumption | discriminate]. }
  split; lra.
Qed.

Lemma round_pos_int q (z : Z) :
  (0 < z < 2 ^ 53)%Z -> q == inject_Z z -> round_pos q == inject_Z z.
Proof.
  intros Hz E.
  assert (Hq : 0 < q).
  { rewrite E. unfold Qlt. simpl. lia. }
  destruct (ilog2_spec q Hq) as [L _].
  assert (Hk : (ilog2 q < 53)%Z).
  { apply pow2_lt_inv. eapply Qle_lt_trans; [exact L|].
    rewrite E. change (pow2 53) with (inject_Z (2 ^ 53)).
    rewrite <- Zlt_Qlt. lia. }
  unfold round_pos. set (e := (ilog2 q - 52)%Z).
  pose proof (pow2_pos e) as Pe. pose proof (pow2_pos (- e)) as Pe'.
  assert (Einv : pow2 (- e) * pow2 e == 1).
  { rewrite <- pow2_plus. replace (- e + e)%Z with 0%Z by lia. reflexivity. }
  assert (Ex : q / pow2 e == inject_Z (z * 2 ^ (- e))).
  { rewrite inject_Z_mult, <- pow2_Z by (unfold e; lia).
    rewrite E. apply Qmult_inj_r with (z := pow2 e); [lra|].
    assert (inject_Z z / pow2 e * pow2 e == inject_Z z) by (field; lra).
    rewrite H. rewrite <- Qmult_assoc, Einv. ring. }
  rewrite (rhe_int _ _ Ex).
  rewrite inject_Z_mult, <- pow2_Z by (unfold e; lia).
  rewrite <- Qmult_assoc, Einv. ring.
Qed.

Lemma round_pos_positive q : 0 < q -> 0 < round_pos q.
Proof.
  intro Hq. destruct (round_pos_range q Hq) as [L _].
  pose proof (pow2_pos (ilog2 q)). lra.
Qed.

(** The nearest double. *)

Lemma round64_comp a b : a == b -> round64 a = round64 b.
Proof. intro E. unfold round64. now rewrite (Qred_complete _ _ E). Qed.

Lemma round64_pos q : 0 < q -> round64 q = round_pos (Qred q).
Proof.
  intro H. unfold round64. cbv zeta.
  replace (Qlt_bool 0 (Qred q)) with true; [reflexivity|].
  symmetry. apply Qlt_bool_iff. now rewrite Qred_correct.
Qed.

Lemma round64_neg q : q < 0 -> round64 q = - round_pos (- Qred q).
Proof.
  intro H. unfold round64. cbv zeta.
  replace (Qlt_bool 0 (Qred q)) with false.
  - replace (Qlt_bool (Qred q) 0) with true; [reflexivity|].
    symmetry. apply Qlt_bool_iff. now rewrite Qred_correct.
  - symmetry. apply Qlt_bool_false_iff. rewrite Qred_correct. lra.
Qed.

Lemma round64_zero q : q == 0 -> round64 q = 0.
Proof.
  intro H. unfold round64. cbv zeta.
  replace (Qlt_bool 0 (Qred q)) with false.
  - replace (Qlt_bool (Qred q) 0) with false; [reflexivity|].
    symmetry. apply Qlt_bool_false_iff. rewrite Qred_correct. lra.
  - symmetry. apply Qlt_bool_false_iff. rewrite Qred_correct. lra.
Qed.

Lemma round64_mono a b : a <= b -> round64 a <= round64 b.
Proof.
  intro Hab.
  pose proof (Qred_correct a) as Ea. pose proof (Qred_correct b) as Eb.
  destruct (Q_dec a 0) as [[Ha|Ha]|Ha], (Q_dec b 0) as [[Hb|Hb]|Hb];
    try lra.
  - rewrite (round64_neg a Ha), (round64_neg b Hb).
    assert (round_pos (- Qred b) <= round_pos (- Qred a))
      by (apply round_pos_mono; lra).
    lra.
  - rewrite (round64_neg a Ha), (round64_pos b Hb).
    assert (0 < round_pos (- Qred a)) by (apply round_pos_positive; lra).
    assert (0 < round_pos (Qred b)) by (apply round_pos_positive; lra).
    lra.
  - rewrite (round64_neg a Ha), (round64_zero b Hb).
    assert (0 < round_pos (- Qred a)) by (apply round_pos_positive; lra).
    lra.
  - rewrite (round64_pos a Ha), (round64_pos b Hb).
    apply round_pos_mono; lra.
  - rewrite (round64_zero a Ha), (round64_pos b Hb).
    assert (0 < round_pos (Qred b)) by (apply round_pos_positive; lra).
    lra.
  - rewrite (round64_zero a Ha), (round64_zero b Hb). lra.
Qed.

Lemma round64_int (z : Z) :
  (- 2 ^ 53 < z < 2 ^ 53)%Z -> round64 (inject_Z z) == inject_Z z.
Proof.
  intro Hz. pose proof (Qred_correct (inject_Z z)) as E.
  destruct (Z_dec z 0) as [[H|H]|H].
  - rewrite round64_neg by (unfold Qlt; simpl; lia).
    rewrite (round_pos_int _ (- z)).
    + rewrite inject_Z_opp. ring.
    + lia.
    + rewrite E, inject_Z_opp. reflexivity.
  - rewrite round64_pos by (unfold Qlt; simpl; lia).
    apply round_pos_int; [lia | assumption].
  - subst z. reflexivity.
Qed.

Lemma round64_nonneg q : 0 <= q -> 0 <= round64 q.
Proof.
  intro H. change 0 with (round64 0) at 1. now apply round64_mono.
Qed.

Lemma round64_error q :
  0 <= q ->
  q * (1 - unit_roundoff) <= round64 q
  /\ round64 q <= q * (1 + unit_roundoff).
Proof.
  intro H. destruct (Q_dec q 0) as [[Hq|Hq]|Hq]; [lra | |].
  - rewrite (round64_pos q Hq).
    destruct (round_pos_error (Qred q)) as [L U].
    { now rewrite Qred_correct. }
    set (r := round_pos (Qred q)) in *.
    rewrite Qred_correct in L, U. split; assumption.
  - rewrite (round64_zero q Hq). rewrite Hq. split; lra.
Qed.

(** ** Slices, truncation and contrast *)

Section Slices.
Context {A : Type}.
Implicit Types (l : list A) (i start stop len : Z).

Lemma py_slice_bound_range len i :
  (0 <= len)%Z -> (0 <= py_slice_bound len i <= len)%Z.
Proof. unfold py_slice_bound. destruct (i <? 0)%Z eqn:E; lia. Qed.

Lemma py_slice_bound_nonneg len i :
  (0 <= i)%Z -> py_slice_bound len i = Z.min i len.
Proof.
  intro H. unfold py_slice_bound.
  destruct (i <? 0)%Z eqn:E; [lia | reflexivity].
Qed.

Lemma py_slice_clip l start stop :
  (0 <= start)%Z -> (0 <= stop)%Z ->
  py_slice l start stop = clip_slice l start stop.
Proof.
  intros Ha Hb. unfold py_slice, clip_slice.
  rewrite !py_slice_bound_nonneg by assumption.
  now rewrite !Z.max_l by assumption.
Qed.

Lemma py_slice_length l start stop :
  length (py_slice l start stop) =
  Z.to_nat (py_slice_bound (Z.of_nat (length l)) stop
            - py_slice_bound (Z.of_nat (length l)) start).
Proof.
  unfold py_slice. rewrite length_firstn, length_skipn.
  pose proof (py_slice_bound_range (Z.of_nat (length l)) start).
  pose proof (py_slice_bound_range (Z.of_nat (length l)) stop).
  lia.
Qed.

Lemma nth_error_clip_slice l start stop (k : nat) :
  (0 <= start)%Z ->
  nth_error (clip_slice l start stop) k =
  if (start + Z.of_nat k <? Z.min stop (Z.of_nat (length l)))%Z
  then nth_error l (Z.to_nat start + k)
  else None.
Proof.
  intro Ha. unfold clip_slice.
  rewrite nth_error_firstn, nth_error_skipn.
  rewrite (Z.max_l start 0) by assumption.
  destruct (start + Z.of_nat k <? Z.min stop (Z.of_nat (length l)))%Z eqn:E.
  - apply Z.ltb_lt in E.
    replace (k <? _)%nat with true by (symmetry; apply Nat.ltb_lt; lia).
    f_equal. lia.
  - apply Z.ltb_ge in E.
    destruct (k <? _)%nat eqn:E'; [|reflexivity].
    apply Nat.ltb_lt in E'. apply nth_error_None. lia.
Qed.
End Slices.

Lemma inject_Z_nonneg z : (0 <= z)%Z -> 0 <= inject_Z z.
Proof. intro H. unfold Qle. simpl. lia. Qed.

Lemma inject_Z_pos z : (0 < z)%Z -> 0 < inject_Z z.
Proof. intro H. unfold Qlt. simpl. lia. Qed.

Lemma py_int_nonneg q : 0 <= q -> py_int q = Qfloor q /\ (0 <= py_int q)%Z.
Proof.
  intro H. unfold py_int. apply Qle_bool_iff in H as Hb. rewrite Hb.
  split; [reflexivity|].
  change 0%Z with (Qfloor 0). now apply Qfloor_resp_le.
Qed.

Lemma py_int_inject_Z z : py_int (inject_Z z) = z.
Proof.
  unfold py_int. destruct (Qle_bool 0 (inject_Z z));
    [apply Qfloor_Z | apply Qceiling_Z].
Qed.

Lemma Qfloor_unique x (n : Z) :
  inject_Z n <= x -> x < inject_Z (n + 1) -> Qfloor x = n.
Proof.
  intros Hlo Hhi.
  assert (n <= Qfloor x)%Z.
  { rewrite <- (Qfloor_Z n). now apply Qfloor_resp_le. }
  assert (Qfloor x < n + 1)%Z.
  { rewrite Zlt_Qlt. eapply Qle_lt_trans; [apply Qfloor_le | exact Hhi]. }
  lia.
Qed.

Lemma Qfloor_plus_Z x (z : Z) : Qfloor (x + inject_Z z) = (Qfloor x + z)%Z.
Proof.
  apply Qfloor_unique.
  - rewrite inject_Z_plus. pose proof (Qfloor_le x). lra.
  - rewrite !inject_Z_plus. pose proof (Qlt_floor x) as H.
    rewrite inject_Z_plus in H. lra.
Qed.

Lemma py_int_plus_Z x (z : Z) :
  0 <= x -> (0 <= z)%Z -> py_int (x + inject_Z z) = (py_int x + z)%Z.
Proof.
  intros Hx Hz.
  pose proof (inject_Z_nonneg z Hz).
  destruct (py_int_nonneg x Hx) as [-> _].
  destruct (py_int_nonneg (x + inject_Z z)) as [-> _]; [lra|].
  apply Qfloor_plus_Z.
Qed.

(** Contrast ratios. *)
Lemma count_255_le_size (f : gray_image) : (0 <= count_255 f <= size f)%Z.
Proof.
  unfold count_255, size.
  pose proof (filter_length_le (fun p => (p =? 255)%Z) (concat f)). lia.
Qed.

Lemma size_threshold_binary t (f : gray_image) :
  size (threshold_binary t f) = size f.
Proof.
  unfold size, threshold_binary. f_equal.
  induction f as [|r f IH]; [reflexivity|].
  cbn [map concat]. rewrite !length_app, length_map. now rewrite IH.
Qed.

Lemma contrast_of_range (f : gray_image) :
  exists c, contrast_of f = Ok c /\ 0 <= c /\ c <= 1 /\
            (size f = 0%Z -> c = 0).
Proof.
  unfold contrast_of. destruct (size f =? 0)%Z eqn:E.
  - exists 0. repeat split; lra.
  - apply Z.eqb_neq in E.
    pose proof (count_255_le_size f) as [Hc Hs].
    assert (Hpos : 0 < inject_Z (size f)) by (apply inject_Z_pos; lia).
    rewrite py_div_ok by lra.
    eexists. split; [reflexivity|]. repeat split.
    + apply Qle_shift_div_l; [assumption|].
      rewrite Qmult_0_l. now apply inject_Z_nonneg.
    + apply Qle_shift_div_r; [assumption|].
      rewrite Qmult_1_l. now rewrite <- Zle_Qle.
    + intro. contradiction.
Qed.

Lemma In_firstn_skipn {A} (x : A) n k l :
  In x (firstn n (skipn k l)) -> In x l.
Proof.
  intro H.
  rewrite <- (firstn_skipn k l). apply in_or_app. right.
  rewrite <- (firstn_skipn n (skipn k l)). apply in_or_app. now left.
Qed.

Lemma In_py_slice {A} (x : A) l a b : In x (py_slice l a b) -> In x l.
Proof. apply In_firstn_skipn. Qed.

(** The window arithmetic of the two bands. *)
Lemma window_thirds (self : DinoBot) :
  let y := inject_Z (snd (top_left self)) in
  let h := inject_Z (template_h self) in
  new_top_left self + new_h self / 3 == y
  /\ new_top_left self + 2 * new_h self / 3 == y + h / 2
  /\ new_top_left self + new_h self == y + h.
Proof.
  unfold new_top_left, new_h. cbv zeta. repeat split; field.
Qed.

Lemma py_int_comp x y : x == y -> py_int x = py_int y.
Proof.
  intro E. unfold py_int.
  replace (Qle_bool 0 y) with (Qle_bool 0 x).
  - destruct (Qle_bool 0 x).
    + now apply Qfloor_comp.
    + now apply Qceiling_comp.
  - destruct (Qle_bool 0 x) eqn:Ex, (Qle_bool 0 y) eqn:Ey; try reflexivity.
    + apply Qle_bool_iff in Ex. apply Qle_bool_false_iff in Ey. lra.
    + apply Qle_bool_iff in Ey. apply Qle_bool_false_iff in Ex. lra.
Qed.

Lemma middle_rows_eq (self : DinoBot) :
  middle_rows self =
  (snd (top_left self),
   py_int (inject_Z (snd (top_left self)) + inject_Z (template_h self) / 2)).
Proof.
  destruct (window_thirds self) as (E1 & E2 & _).
  unfold middle_rows.
  rewrite (py_int_comp _ _ E1), (py_int_comp _ _ E2), py_int_inject_Z.
  reflexivity.
Qed.

Lemma bottom_rows_eq (self : DinoBot) :
  bottom_rows self =
  (py_int (inject_Z (snd (top_left self)) + inject_Z (template_h self) / 2),
   (snd (top_left self) + template_h self)%Z).
Proof.
  destruct (window_thirds self) as (_ & E2 & E3).
  unfold bottom_rows.
  rewrite (py_int_comp _ _ E2), (py_int_comp _ _ E3).
  rewrite <- inject_Z_plus, py_int_inject_Z. reflexivity.
Qed.

Lemma py_int_mono (a b : Q) : a <= b -> (py_int a <= py_int b)%Z.
Proof.
  intro Hab. unfold py_int.
  destruct (Qle_bool 0 a) eqn:Ea, (Qle_bool 0 b) eqn:Eb; qbool.
  - now apply Qfloor_resp_le.
  - lra.
  - assert (Qceiling a <= 0)%Z.
    { unfold Qceiling.
      assert (0 <= Qfloor (- a))%Z; [|lia].
      change 0%Z with (Qfloor 0). apply Qfloor_resp_le. lra. }
    assert (0 <= Qfloor b)%Z.
    { change 0%Z with (Qfloor 0). now apply Qfloor_resp_le. }
    lia.
  - now apply Qceiling_resp_le.
Qed.

Lemma py_int_nonpos q : q <= 0 -> (py_int q <= 0)%Z.
Proof.
  intro H. change 0%Z with (py_int 0). now apply py_int_mono.
Qed.

Lemma py_int_floor_bounds q :
  0 <= q -> inject_Z (py_int q) <= q /\ q < inject_Z (py_int q) + 1.
Proof.
  intro H. destruct (py_int_nonneg q H) as [-> _].
  pose proof (Qfloor_le q). pose proof (Qlt_floor q) as Hu.
  rewrite inject_Z_plus in Hu. change (inject_Z 1) with 1 in Hu.
  split; assumption.
Qed.

(** Float arithmetic on integers that a double holds. *)
Lemma float_of_int_exact z :
  (- 2 ^ 53 < z < 2 ^ 53)%Z -> float_of_int z == inject_Z z.
Proof. apply round64_int. Qed.

Lemma float_of_int_nonneg z : (0 <= z)%Z -> 0 <= float_of_int z.
Proof. intro H. apply round64_nonneg. now apply inject_Z_nonneg. Qed.

Lemma Qmult_le_compat_nonneg a b c d :
  0 <= a -> a <= b -> 0 <= c -> c <= d -> a * c <= b * d.
Proof.
  intros Ha Hab Hc Hcd.
  assert (a * c <= b * c) by (apply Qmult_le_compat_r; assumption).
  assert (c * b <= d * b) by (apply Qmult_le_compat_r; lra).
  lra.
Qed.


Lemma band_cols_nonneg (self : DinoBot) (scale_w : Q) :
  (0 <= fst (top_left self))%Z -> (0 <= template_w self)%Z ->
  1 <= scale_w ->
  (0 <= fst (band_cols self scale_w))%Z
  /\ (0 <= snd (band_cols self scale_w))%Z.
Proof.
  intros Hx Hw Hs.
  pose proof (float_of_int_nonneg _ Hx) as Fx.
  pose proof (float_of_int_nonneg _ Hw) as Fw.
  unfold band_cols, fadd, fmul, fsub. cbn [fst snd].
  assert (0 <= round64 (scale_w - 1)) by (apply round64_nonneg; lra).
  assert (0 <= round64 (round64 (scale_w - 1)
                        * float_of_int (template_w self)))
    by (apply round64_nonneg, Qmult_le_0_compat; assumption).
  assert (0 <= round64 (scale_w * float_of_int (template_w self)))
    by (apply round64_nonneg, Qmult_le_0_compat; [lra | assumption]).
  split; apply py_int_nonneg, round64_nonneg; lra.
Qed.

Lemma band_cols_eq (self : DinoBot) (scale_w : Q) :
  (- 2 ^ 53 < fst (top_left self) < 2 ^ 53)%Z ->
  (- 2 ^ 53 < template_w self < 2 ^ 53)%Z ->
  band_cols self scale_w =
  (py_int (round64 (inject_Z (fst (top_left self))
                    + round64 (round64 (scale_w - 1)
                               * inject_Z (template_w self)))),
   py_int (round64 (inject_Z (fst (top_left self))
                    + round64 (scale_w * inject_Z (template_w self))))).
Proof.
  intros Hx Hw. unfold band_cols, fadd, fmul, fsub.
  pose proof (float_of_int_exact _ Hx) as Ex.
  pose proof (float_of_int_exact _ Hw) as Ew.
  f_equal; f_equal.
  - rewrite (round64_comp
               (round64 (scale_w - 1) * float_of_int (template_w self))
               (round64 (scale_w - 1) * inject_Z (template_w self)))
      by (now rewrite Ew).
    apply round64_comp. now rewrite Ex.
  - rewrite (round64_comp (scale_w * float_of_int (template_w self))
                          (scale_w * inject_Z (template_w self)))
      by (now rewrite Ew).
    apply round64_comp. now rewrite Ex.
Qed.

Lemma band_cols_width (self : DinoBot) (scale_w : Q) :
  (0 <= fst (top_left self))%Z -> (0 <= template_w self)%Z ->
  1 <= scale_w ->
  inject_Z (fst (top_left self)) + scale_w * inject_Z (template_w self)
  <= inject_Z (2 ^ 40) ->
  let c0 := fst (band_cols self scale_w) in
  let c1 := snd (band_cols self scale_w) in
  (fst (top_left self) <= c0 <= c1)%Z
  /\ (template_w self - 1 <= c1 - c0 <= template_w self + 1)%Z.
Proof.
  intros Hx Hw Hs Hb. cbv zeta.
  change (inject_Z (2 ^ 40)) with 1099511627776 in Hb.
  set (x := fst (top_left self)) in *. set (w := template_w self) in *.
  pose proof (inject_Z_nonneg x Hx) as HX.
  pose proof (inject_Z_nonneg w Hw) as HW.
  assert (HP : 0 <= (scale_w - 1) * inject_Z w)
    by (apply Qmult_le_0_compat; lra).
  assert (Hx53 : (- 2 ^ 53 < x < 2 ^ 53)%Z).
  { assert (Hle : inject_Z x <= inject_Z 1099511627776)
      by (change (inject_Z 1099511627776) with 1099511627776; lra).
    rewrite <- Zle_Qle in Hle. change (2 ^ 53)%Z with 9007199254740992%Z.
    lia. }
  assert (Hw53 : (- 2 ^ 53 < w < 2 ^ 53)%Z).
  { assert (Hle : inject_Z w <= inject_Z 1099511627776)
      by (change (inject_Z 1099511627776) with 1099511627776; lra).
    rewrite <- Zle_Qle in Hle. change (2 ^ 53)%Z with 9007199254740992%Z.
    lia. }
  rewrite band_cols_eq by assumption. cbn [fst snd]. fold x w.
  set (X := inject_Z x) in *. set (W := inject_Z w) in *.
  set (a1 := round64 (scale_w - 1)).
  set (a2 := round64 (a1 * W)).
  set (a3 := round64 (X + a2)).
  set (b2 := round64 (scale_w * W)).
  set (b3 := round64 (X + b2)).
  destruct (round64_error (scale_w - 1)) as [A1l A1u]; [lra|].
  fold a1 in A1l, A1u.
  assert (N1 : 0 <= a1) by (apply round64_nonneg; lra).
  assert (P0 : 0 <= a1 * W) by (apply Qmult_le_0_compat; assumption).
  destruct (round64_error (a1 * W) P0) as [A2l A2u]. fold a2 in A2l, A2u.
  assert (N2 : 0 <= a2) by (apply round64_nonneg; assumption).
  destruct (round64_error (X + a2)) as [A3l A3u]; [lra|]. fold a3 in A3l, A3u.
  assert (N3 : 0 <= a3) by (apply round64_nonneg; lra).
  assert (Q0 : 0 <= scale_w * W) by (apply Qmult_le_0_compat; lra).
  destruct (round64_error (scale_w * W) Q0) as [B2l B2u]. fold b2 in B2l, B2u.
  assert (M2 : 0 <= b2) by (apply round64_nonneg; assumption).
  destruct (round64_error (X + b2)) as [B3l B3u]; [lra|]. fold b3 in B3l, B3u.
  assert (M3 : 0 <= b3) by (apply round64_nonneg; lra).
  assert (M1l : (scale_w - 1) * (1 - unit_roundoff) * W <= a1 * W)
    by (apply Qmult_le_compat_r; assumption).
  assert (M1u : a1 * W <= (scale_w - 1) * (1 + unit_roundoff) * W)
    by (apply Qmult_le_compat_r; assumption).
  unfold unit_roundoff in *.
  (* the band starts at the character or ahead of it *)
  assert (Hstart : X <= a3).
  { assert (E : round64 X == X) by (apply round64_int; assumption).
    rewrite <- E. apply round64_mono. lra. }
  (* and is not reversed *)
  assert (Hord : a3 <= b3).
  { apply round64_mono.
    assert (a2 <= b2); [|lra].
    apply round64_mono.
    destruct (Z.eq_dec w 0) as [E0|E0].
    - unfold W. rewrite E0. change (inject_Z 0) with 0. lra.
    - assert (H1 : 1 <= W).
      { unfold W. change 1 with (inject_Z 1). rewrite <- Zle_Qle. lia. }
      assert (0 <= scale_w * (W - 1)) by (apply Qmult_le_0_compat; lra).
      apply Qmult_le_compat_r; [lra | assumption]. }
  destruct (py_int_floor_bounds a3 N3) as [Fa Ga].
  destruct (py_int_floor_bounds b3 M3) as [Fb Gb].
  set (c0 := py_int a3) in *. set (c1 := py_int b3) in *.
  assert (Hc0 : (x <= c0)%Z).
  { unfold c0. rewrite <- (py_int_inject_Z x). now apply py_int_mono. }
  assert (Hc1 : (c0 <= c1)%Z) by (now apply py_int_mono).
  assert (Hup : inject_Z c1 < inject_Z (c0 + w + 2)).
  { rewrite !inject_Z_plus. fold W. change (inject_Z 2) with 2. lra. }
  assert (Hlo : inject_Z (c0 + w - 2) < inject_Z c1).
  { unfold Z.sub. rewrite !inject_Z_plus. fold W.
    change (inject_Z (- (2))) with (- (2)). lra. }
  rewrite <- Zlt_Qlt in Hup, Hlo. lia.
Qed.

Lemma band_cols_integer_scale (self : DinoBot) (scale_w : Q) (k : Z) :
  (0 <= fst (top_left self))%Z -> (0 <= template_w self)%Z ->
  (1 <= k < 2 ^ 53)%Z -> scale_w == inject_Z k ->
  inject_Z (fst (top_left self)) + scale_w * inject_Z (template_w self)
  <= inject_Z (2 ^ 40) ->
  band_cols self scale_w
  = (fst (top_left self) + (k - 1) * template_w self,
     fst (top_left self) + k * template_w self)%Z.
Proof.
  intros Hx Hw Hk Ek Hb.
  change (2 ^ 40)%Z with 1099511627776%Z in Hb.
  change (2 ^ 53)%Z with 9007199254740992%Z in Hk.
  set (x := fst (top_left self)) in *. set (w := template_w self) in *.
  assert (Hkw : (x + k * w <= 1099511627776)%Z).
  { rewrite Ek, <- inject_Z_mult, <- inject_Z_plus, <- Zle_Qle in Hb.
    exact Hb. }
  assert (Hx53 : (- 2 ^ 53 < x < 2 ^ 53)%Z)
    by (change (2 ^ 53)%Z with 9007199254740992%Z; nia).
  assert (Hw53 : (- 2 ^ 53 < w < 2 ^ 53)%Z)
    by (change (2 ^ 53)%Z with 9007199254740992%Z; nia).
  rewrite band_cols_eq by assumption. fold x w.
  assert (E1 : round64 (scale_w - 1) == inject_Z (k - 1)).
  { rewrite (round64_comp (scale_w - 1) (inject_Z (k - 1))).
    - apply round64_int. change (2 ^ 53)%Z with 9007199254740992%Z. lia.
    - rewrite Ek. unfold Z.sub. rewrite inject_Z_plus. reflexivity. }
  assert (E2 : round64 (round64 (scale_w - 1) * inject_Z w)
               == inject_Z ((k - 1) * w)).
  { rewrite (round64_comp _ (inject_Z ((k - 1) * w))).
    - apply round64_int. change (2 ^ 53)%Z with 9007199254740992%Z. nia.
    - rewrite E1, inject_Z_mult. reflexivity. }
  assert (E3 : round64 (scale_w * inject_Z w) == inject_Z (k * w)).
  { rewrite (round64_comp _ (inject_Z (k * w))).
    - apply round64_int. change (2 ^ 53)%Z with 9007199254740992%Z. nia.
    - rewrite Ek, inject_Z_mult. reflexivity. }
  f_equal.
  - rewrite <- (py_int_inject_Z (x + (k - 1) * w)). apply py_int_comp.
    rewrite (round64_comp _ (inject_Z (x + (k - 1) * w))).
    + apply round64_int. change (2 ^ 53)%Z with 9007199254740992%Z. nia.
    + rewrite E2, inject_Z_plus. reflexivity.
  - rewrite <- (py_int_inject_Z (x + k * w)). apply py_int_comp.
    rewrite (round64_comp _ (inject_Z (x + k * w))).
    + apply round64_int. change (2 ^ 53)%Z with 9007199254740992%Z. nia.
    + rewrite E3, inject_Z_plus. reflexivity.
Qed.

Lemma slice2_clip {A} (a : list (list A)) r0 r1 c0 c1 :
  (0 <= r0)%Z -> (0 <= r1)%Z -> (0 <= c0)%Z -> (0 <= c1)%Z ->
  slice2 a r0 r1 c0 c1 = clip_slice2 a r0 r1 c0 c1.
Proof.
  intros. unfold slice2, clip_slice2.
  rewrite py_slice_clip by assumption.
  apply map_ext. intro row. now apply py_slice_clip.
Qed.

(** The pixels of a slice are the pixels of the array, moved by the
    slice's first row and first column. *)
Lemma pixel_slice2 {A} (a : list (list A)) (r0 r1 c0 c1 : Z) (i j : nat) :
  (0 <= r0)%Z -> (0 <= r1)%Z -> (0 <= c0)%Z -> (0 <= c1)%Z ->
  pixel (slice2 a r0 r1 c0 c1) i j =
  if ((r0 + Z.of_nat i <? r1)%Z && (c0 + Z.of_nat j <? c1)%Z)%bool
  then pixel a (Z.to_nat r0 + i) (Z.to_nat c0 + j)
  else None.
Proof.
  intros Hr0 Hr1 Hc0 Hc1. unfold pixel, slice2.
  rewrite nth_error_map, py_slice_clip, nth_error_clip_slice by assumption.
  destruct (r0 + Z.of_nat i <? Z.min r1 (Z.of_nat (length a)))%Z eqn:Er.
  - apply Z.ltb_lt in Er.
    replace (r0 + Z.of_nat i <? r1)%Z with true
      by (symmetry; apply Z.ltb_lt; lia).
    destruct (nth_error a (Z.to_nat r0 + i)) as [row|] eqn:En.
    2:{ apply nth_error_None in En. lia. }
    cbn [option_map andb].
    rewrite py_slice_clip, nth_error_clip_slice by assumption.
    destruct (c0 + Z.of_nat j <? Z.min c1 (Z.of_nat (length row)))%Z eqn:Ec.
    + apply Z.ltb_lt in Ec.
      replace (c0 + Z.of_nat j <? c1)%Z with true
        by (symmetry; apply Z.ltb_lt; lia).
      reflexivity.
    + apply Z.ltb_ge in Ec.
      destruct (c0 + Z.of_nat j <? c1)%Z eqn:Ec'; [|reflexivity].
      apply Z.ltb_lt in Ec'. symmetry. apply nth_error_None. lia.
  - apply Z.ltb_ge in Er. cbn [option_map].
    destruct (r0 + Z.of_nat i <? r1)%Z eqn:Er'; [|reflexivity].
    apply Z.ltb_lt in Er'.
    replace (nth_error a (Z.to_nat r0 + i)) with (@None (list A))
      by (symmetry; apply nth_error_None; lia).
    now destruct (c0 + Z.of_nat j <? c1)%Z.
Qed.

Lemma pixel_threshold_binary (t : Z) (a : gray_image) (i j : nat) :
  pixel (threshold_binary t a) i j = option_map (binary_pixel t) (pixel a i j).
Proof.
  unfold pixel, threshold_binary. rewrite nth_error_map.
  destruct (nth_error a i) as [row|]; cbn [option_map]; [|reflexivity].
  apply nth_error_map.
Qed.

(** Thresholding and the contrast of a band. *)
Lemma count_255_threshold_binary (t : Z) (f : gray_image) :
  count_255 (threshold_binary t f) = count_above t f.
Proof.
  unfold count_255, count_above, threshold_binary. f_equal.
  induction f as [|row f IH]; [reflexivity|].
  cbn [map concat]. rewrite !filter_app, !length_app, IH. f_equal.
  clear IH. induction row as [|p row IHr]; [reflexivity|].
  cbn [map filter]. unfold binary_pixel at 1.
  destruct (t <? p)%Z; cbn; now rewrite IHr.
Qed.

Lemma share_above_range (t : Z) (band : gray_image) :
  size band <> 0%Z -> 0 <= share_above t band /\ share_above t band <= 1.
Proof.
  intro Hne. unfold share_above.
  pose proof (count_255_le_size (threshold_binary t band)) as [Hc Hs].
  rewrite count_255_threshold_binary in Hc, Hs.
  rewrite size_threshold_binary in Hs.
  assert (Hpos : 0 < inject_Z (size band)) by (apply inject_Z_pos; lia).
  split.
  - apply Qle_shift_div_l; [assumption|].
    rewrite Qmult_0_l. now apply inject_Z_nonneg.
  - apply Qle_shift_div_r; [assumption|].
    rewrite Qmult_1_l. now rewrite <- Zle_Qle.
Qed.

Lemma contrast_of_threshold_binary (t : Z) (band : gray_image) :
  size band <> 0%Z ->
  contrast_of (threshold_binary t band) = Ok (share_above t band).
Proof.
  intro E. unfold contrast_of, share_above.
  rewrite size_threshold_binary, count_255_threshold_binary.
  apply Z.eqb_neq in E as Eb. rewrite Eb. apply py_div_ok.
  pose proof (count_255_le_size band).
  assert (0 < inject_Z (size band)) by (apply inject_Z_pos; lia). lra.
Qed.

Lemma binarize_cases `{Collaborators} (is_day : bool) (band : gray_image) :
  binarize is_day band =
  if (size band =? 0)%Z then None
  else Some (threshold_binary (if is_day then 180%Z else otsu band) band).
Proof. now destruct is_day. Qed.

Lemma band_contrasts_ok `{Collaborators} (is_day : bool)
    (middle bottom : gray_image) :
  size middle <> 0%Z -> size bottom <> 0%Z ->
  _compute_contrasts [binarize is_day middle; binarize is_day bottom]
  = Ok [share_above (if is_day then 180%Z else otsu middle) middle;
        share_above (if is_day then 180%Z else otsu bottom) bottom].
Proof.
  intros Hm Hb. rewrite !binarize_cases.
  apply Z.eqb_neq in Hm as Em. apply Z.eqb_neq in Hb as Eb.
  rewrite Em, Eb. cbn [_compute_contrasts frame_contrast].
  now rewrite !contrast_of_threshold_binary.
Qed.

Lemma band_contrasts_raise `{Collaborators} (is_day : bool)
    (middle bottom : gray_image) :
  size middle = 0%Z \/ size bottom = 0%Z ->
  _compute_contrasts [binarize is_day middle; binarize is_day bottom]
  = Raise AttributeError.
Proof.
  intro Hempty. rewrite !binarize_cases.
  destruct (size middle =? 0)%Z eqn:Em; [reflexivity|].
  apply Z.eqb_neq in Em.
  destruct Hempty as [E|E]; [contradiction|].
  rewrite E. cbn [Z.eqb _compute_contrasts frame_contrast].
  now rewrite contrast_of_threshold_binary.
Qed.

Lemma shape_nonneg {A} (a : list (list A)) : (0 <= shape0 a /\ 0 <= shape1 a)%Z.
Proof. unfold shape0, shape1. lia. Qed.

(** The size of a resized template. *)
Lemma scaled_length_ge_1 (n : Z) (q : Q) : (1 <= scaled_length n q)%Z.
Proof. unfold scaled_length. lia. Qed.

Lemma scaled_length_mono (n : Z) (q1 q2 : Q) :
  (0 <= n)%Z -> q1 <= q2 -> (scaled_length n q1 <= scaled_length n q2)%Z.
Proof.
  intros Hn Hq. unfold scaled_length, fmul.
  apply Z.max_le_compat_l, py_int_mono, round64_mono.
  rewrite !(Qmult_comm (float_of_int n)).
  apply Qmult_le_compat_r; [assumption | now apply float_of_int_nonneg].
Qed.

Lemma int_truediv_mono (s1 s2 d : Z) :
  (0 < d)%Z -> (s1 <= s2)%Z -> int_truediv s1 d <= int_truediv s2 d.
Proof.
  intros Hd Hs. unfold int_truediv. apply round64_mono.
  unfold Qdiv. apply Qmult_le_compat_r; [now rewrite <- Zle_Qle|].
  apply Qlt_le_weak, Qinv_lt_0_compat. now apply inject_Z_pos.
Qed.

Lemma int_truediv_same (d : Z) : (0 < d)%Z -> int_truediv d d == 1.
Proof.
  intro Hd. unfold int_truediv.
  rewrite (round64_comp _ (inject_Z 1)).
  - now apply round64_int.
  - pose proof (inject_Z_pos d Hd). change (inject_Z 1) with 1. field. lra.
Qed.

Lemma scaled_length_one (n : Z) (q : Q) :
  (0 <= n < 2 ^ 53)%Z -> q == 1 -> scaled_length n q = Z.max 1 n.
Proof.
  intros Hn Eq. unfold scaled_length, fmul. f_equal.
  rewrite <- (py_int_inject_Z n) at 2. apply py_int_comp.
  assert (En : float_of_int n == inject_Z n)
    by (apply float_of_int_exact; lia).
  rewrite (round64_comp _ (inject_Z n)) by (rewrite En, Eq; ring).
  apply round64_int. lia.
Qed.

Lemma scaled_length_trunc (n : Z) (q : Q) :
  let v := fmul (float_of_int n) q in
  (1 <= v -> inject_Z (scaled_length n q) <= v
             /\ v < inject_Z (scaled_length n q) + 1)
  /\ (v < 1 -> scaled_length n q = 1%Z).
Proof.
  cbv zeta. unfold scaled_length. set (v := fmul (float_of_int n) q).
  split.
  - intro Hv. destruct (py_int_floor_bounds v) as [Hl Hu]; [lra|].
    assert (1 <= py_int v)%Z.
    { change 1%Z with (py_int 1). now apply py_int_mono. }
    rewrite Z.max_r by assumption. split; assumption.
  - intro Hv. destruct (Qlt_le_dec v 0) as [Hneg|Hpos].
    + assert (py_int v <= 0)%Z by (apply py_int_nonpos; lra). lia.
    + destruct (py_int_floor_bounds v Hpos) as [Hl _].
      assert (Hlt : inject_Z (py_int v) < inject_Z 1)
        by (change (inject_Z 1) with 1; lra).
      rewrite <- Zlt_Qlt in Hlt. lia.
Qed.

Lemma scaled_length_exact (n s d : Z) :
  (0 <= n)%Z -> (0 <= s)%Z -> (0 < d)%Z ->
  let exact := inject_Z n * inject_Z s / inject_Z d in
  let got := inject_Z (scaled_length n (int_truediv s d)) in
  exact * (1 - 3 * unit_roundoff) - 1 < got
  /\ (1 <= exact -> got <= exact * (1 + 4 * unit_roundoff)).
Proof.
  intros Hn Hs Hd. cbv zeta.
  pose proof (inject_Z_nonneg n Hn) as HN.
  pose proof (inject_Z_nonneg s Hs) as HS.
  pose proof (inject_Z_pos d Hd) as HD.
  set (N := inject_Z n) in *.
  set (e0 := inject_Z s / inject_Z d).
  assert (He0 : 0 <= e0).
  { unfold e0. apply Qle_shift_div_l; [assumption | lra]. }
  assert (Ee : N * inject_Z s / inject_Z d == N * e0)
    by (unfold e0, Qdiv; ring).
  rewrite Ee.
  unfold scaled_length, fmul, int_truediv, float_of_int. fold N e0.
  set (fn := round64 N). set (q := round64 e0).
  set (v := round64 (fn * q)).
  destruct (round64_error N HN) as [Nl Nu]. fold fn in Nl, Nu.
  destruct (round64_error e0 He0) as [El Eu]. fold q in El, Eu.
  assert (Hfn : 0 <= fn) by (now apply round64_nonneg).
  assert (Hq : 0 <= q) by (now apply round64_nonneg).
  assert (Hp : 0 <= fn * q) by (now apply Qmult_le_0_compat).
  destruct (round64_error (fn * q) Hp) as [Vl Vu]. fold v in Vl, Vu.
  assert (Hv : 0 <= v) by (now apply round64_nonneg).
  assert (HE : 0 <= N * e0) by (now apply Qmult_le_0_compat).
  unfold unit_roundoff in *.
  assert (Pl : N * (1 - (1 # 9007199254740992))
               * (e0 * (1 - (1 # 9007199254740992))) <= fn * q).
  { apply Qmult_le_compat_nonneg; try assumption.
    - apply Qmult_le_0_compat; [assumption | discriminate].
    - apply Qmult_le_0_compat; [assumption | discriminate]. }
  assert (Pu : fn * q <= N * (1 + (1 # 9007199254740992))
                         * (e0 * (1 + (1 # 9007199254740992))))
    by (apply Qmult_le_compat_nonneg; assumption).
  destruct (py_int_floor_bounds v Hv) as [Fl Fu].
  destruct (Z.max_spec 1 (py_int v)) as [[Hlt ->]|[Hge ->]].
  - split; [lra|]. intros _. lra.
  - assert (Hle : inject_Z (py_int v) <= inject_Z 1)
      by (rewrite <- Zle_Qle; lia).
    change (inject_Z 1) with 1 in *. split; [lra|]. intro H1. lra.
Qed.

Lemma new_width_at_reference (template : bgr_image) :
  (shape1 template < 2 ^ 53)%Z ->
  new_width 1920 template = Z.max 1 (shape1 template).
Proof.
  intro Hb. destruct (shape_nonneg template) as [_ H1].
  unfold new_width. apply scaled_length_one; [lia|].
  now apply int_truediv_same.
Qed.

Lemma new_height_at_reference (template : bgr_image) :
  (shape0 template < 2 ^ 53)%Z ->
  new_height 1080 template = Z.max 1 (shape0 template).
Proof.
  intro Hb. destruct (shape_nonneg template) as [H0 _].
  unfold new_height. apply scaled_length_one; [lia|].
  now apply int_truediv_same.
Qed.

Lemma new_width_mono (template : bgr_image) (w1 w2 : Z) :
  (w1 <= w2)%Z -> (new_width w1 template <= new_width w2 template)%Z.
Proof.
  intro H. destruct (shape_nonneg template) as [_ H1].
  unfold new_width. apply scaled_length_mono; [assumption|].
  now apply int_truediv_mono.
Qed.

Lemma new_height_mono (template : bgr_image) (h1 h2 : Z) :
  (h1 <= h2)%Z -> (new_height h1 template <= new_height h2 template)%Z.
Proof.
  intro H. destruct (shape_nonneg template) as [H0 _].
  unfold new_height. apply scaled_length_mono; [assumption|].
  now apply int_truediv_mono.
Qed.

Lemma py_int_half (y h : Z) :
  (0 <= y)%Z -> (0 <= h)%Z ->
  py_int (inject_Z y + inject_Z h / 2) = (y + h / 2)%Z.
Proof.
  intros Hy Hh.
  assert (E : inject_Z y + inject_Z h / 2 == inject_Z h / 2 + inject_Z y)
    by ring.
  rewrite (py_int_comp _ _ E).
  assert (H2 : 0 <= inject_Z h / 2).
  { apply Qle_shift_div_l; [lra|]. rewrite Qmult_0_l.
    now apply inject_Z_nonneg. }
  rewrite py_int_plus_Z by assumption.
  destruct (py_int_nonneg _ H2) as [-> _].
  change 2 with (inject_Z 2). rewrite <- Zdiv_Qdiv. lia.
Qed.

(** A slice whose first column is at or beyond the end of every row has
    no pixel. *)
Lemma slice2_beyond_width {A} (a : list (list A)) (r0 r1 c0 c1 : Z) :
  (0 <= c0)%Z ->
  Forall (fun row => (Z.of_nat (length row) <= c0)%Z) a ->
  size (slice2 a r0 r1 c0 c1) = 0%Z.
Proof.
  intros Hc Hall. unfold size, slice2.
  assert (Hrows : Forall (fun row => (Z.of_nat (length row) <= c0)%Z)
                         (py_slice a r0 r1)).
  { apply Forall_forall. intros row Hin. apply In_py_slice in Hin.
    rewrite Forall_forall in Hall. now apply Hall. }
  induction Hrows as [|row rows Hrow _ IH]; [reflexivity|].
  cbn [map concat]. rewrite length_app, py_slice_length.
  rewrite (py_slice_bound_nonneg _ c0) by assumption.
  pose proof (py_slice_bound_range (Z.of_nat (length row)) c1).
  lia.
Qed.

(** ** The control loop, stage by stage *)

Ltac unfold_M :=
  unfold bind, get_self, set_self, emit, log, lift, perf_counter, ret in *;
  cbn [self reads events calls fst snd] in *.

Section Loop.
Context `{Collaborators}.

Lemma tick_tracking (frame_bgr : bgr_image) (m : machine) :
  skip_initialize (self m) = true ->
  tick frame_bgr m =
  (o <- perceive frame_bgr ;; select_action o ;; idle_reset (now o)) m.
Proof.
  intro E. unfold tick at 1, bind at 1, get_self. now rewrite E.
Qed.

Lemma tick_searching (frame_bgr : bgr_image) (m : machine) :
  skip_initialize (self m) = false ->
  tick frame_bgr m = searching_tick frame_bgr m.
Proof.
  intro E. unfold tick at 1, bind at 1, get_self. now rewrite E.
Qed.

Lemma perceive_ok (frame_bgr : bgr_image) (m m1 : machine)
    (o : observation) :
  perceive frame_bgr m = (m1, Ok o) ->
  self m1 = self m /\ events m1 = events m
  /\ reads m1 = S (S (reads m))
  /\ calls m1 = calls m ++ [Call_is_day_scene;
                            Call_threshold_obstacle_frames;
                            Call_compute_contrasts]
  /\ elapsed_time o = clock (reads m) - start_time (self m)
  /\ now o = clock (S (reads m)).
Proof.
  unfold perceive. unfold_M.
  destruct (_is_day_scene _ _) as [day|e]; [|discriminate].
  destruct (_get_dynamic_scale_w _ _) as [scale_w|e]; [|discriminate].
  unfold _threshold_obstacle_frames.
  destruct (_compute_contrasts _) as [cs|e]; [|discriminate].
  intro E. injection E as <- <-. cbn.
  rewrite <- !app_assoc. repeat split.
Qed.

Lemma perceive_raise (frame_bgr : bgr_image) (m m1 : machine) (e : exn) :
  perceive frame_bgr m = (m1, Raise e) ->
  self m1 = self m /\ events m1 = events m
  /\ exists cs, calls m1 = calls m ++ cs /\ ~ In Call_find_dinosaur cs.
Proof.
  unfold perceive. unfold_M.
  destruct (_is_day_scene _ _) as [day|e1].
  - destruct (_get_dynamic_scale_w _ _) as [scale_w|e2].
    + unfold _threshold_obstacle_frames.
      destruct (_compute_contrasts _) as [cs|e3]; [discriminate|].
      intro E. injection E as <- <-. cbn. repeat split.
      eexists. rewrite <- !app_assoc. split; [reflexivity|].
      cbn. intuition discriminate.
    + intro E. injection E as <- <-. cbn. repeat split.
      eexists. split; [reflexivity|]. cbn. intuition discriminate.
  - intro E. injection E as <- <-. cbn. repeat split.
    eexists. split; [reflexivity|]. cbn. intuition discriminate.
Qed.

Lemma select_action_spec (o : observation) (m : machine) :
  exists m2,
    select_action o m = (m2, Ok tt)
    /\ reads m2 = reads m /\ calls m2 = calls m
    /\ params (self m2) = params (self m)
    /\ skip_initialize (self m2) = skip_initialize (self m)
    /\ character (self m2) = character (self m)
    /\ start_time (self m2) = start_time (self m)
    /\ (is_obstacle_bottom o = true ->
        late_game_time (params (self m)) <= elapsed_time o ->
        events m2 = events m ++
          [KeyDown space; KeyUp space;
           Sleep (post_jump_duck_sleep (params (self m)));
           KeyDown down; KeyUp down]
        /\ last_button_push (self m2) = now o)
    /\ (is_obstacle_bottom o = true ->
        elapsed_time o < late_game_time (params (self m)) ->
        events m2 = events m ++ [Press space]
        /\ last_button_push (self m2) = now o)
    /\ (is_obstacle_bottom o = false -> is_obstacle_middle o = true ->
        events m2 = events m ++
          [KeyDown down; Sleep (duck_time (params (self m))); KeyUp down]
        /\ last_button_push (self m2) = now o)
    /\ (is_obstacle_bottom o = false -> is_obstacle_middle o = false ->
        m2 = m).
Proof.
  unfold select_action. unfold_M.
  destruct (is_obstacle_bottom o) eqn:Eb.
  - destruct (Qle_bool _ _) eqn:El; cbn;
      eexists; (split; [reflexivity|]); cbn;
      rewrite <- ?app_assoc; cbn;
      repeat split; try discriminate; intros.
    + apply Qle_bool_iff in El. lra.
    + apply Qle_bool_false_iff in El. lra.
  - destruct (is_obstacle_middle o) eqn:Em; cbn;
      eexists; (split; [reflexivity|]); cbn;
      rewrite <- ?app_assoc; cbn;
      repeat split; try discriminate.
Qed.

Lemma idle_reset_spec (t : Q) (m : machine) :
  exists m3,
    idle_reset t m = (m3, Ok tt)
    /\ calls m3 = calls m
    /\ params (self m3) = params (self m)
    /\ skip_initialize (self m3) = skip_initialize (self m)
    /\ character (self m3) = character (self m)
    /\ (idle_reset_time (params (self m)) < t - last_button_push (self m) ->
        events m3 = events m ++ [Press space]
        /\ last_button_push (self m3) = t
        /\ start_time (self m3) = clock (reads m)
        /\ reads m3 = S (reads m))
    /\ (t - last_button_push (self m) <= idle_reset_time (params (self m)) ->
        m3 = m).
Proof.
  unfold idle_reset. unfold_M.
  destruct (Qlt_bool _ _) eqn:E; cbn;
    eexists; (split; [reflexivity|]); cbn; repeat split; intros.
  - apply Qlt_bool_iff in E. lra.
  - apply Qlt_bool_false_iff in E. lra.
  - apply Qlt_bool_false_iff in E. lra.
  - apply Qlt_bool_false_iff in E. lra.
  - apply Qlt_bool_false_iff in E. lra.
Qed.

Lemma tick_tracking_ok (frame_bgr : bgr_image) (m m1 : machine)
    (o : observation) :
  skip_initialize (self m) = true ->
  perceive frame_bgr m = (m1, Ok o) ->
  tick frame_bgr m = (select_action o ;; idle_reset (now o)) m1.
Proof.
  intros Hskip Ep. rewrite (tick_tracking _ _ Hskip).
  unfold bind at 1. now rewrite Ep.
Qed.

Lemma tick_tracking_raise (frame_bgr : bgr_image) (m m1 : machine)
    (e : exn) :
  skip_initialize (self m) = true ->
  perceive frame_bgr m = (m1, Raise e) ->
  tick frame_bgr m = (m1, Raise e).
Proof.
  intros Hskip Ep. rewrite (tick_tracking _ _ Hskip).
  unfold bind at 1. now rewrite Ep.
Qed.

Lemma searching_tick_spec (frame_bgr : bgr_image) (m : machine) :
  let mt := _find_dinosaur (self m) frame_bgr in
  exists m1,
    searching_tick frame_bgr m = (m1, Ok tt)
    /\ calls m1 = calls m ++ [Call_find_dinosaur]
    /\ params (self m1) = params (self m)
    /\ template_day (self m1) = template_day (self m)
    /\ template_night (self m1) = template_night (self m)
    /\ (found mt = true ->
        events m1 = events m ++ [Press space]
        /\ skip_initialize (self m1) = true)
    /\ (found mt = false ->
        events m1 = events m
        /\ skip_initialize (self m1) = skip_initialize (self m)).
Proof.
  cbv zeta. unfold searching_tick. unfold_M.
  destruct (found _) eqn:E; cbn;
    eexists; (split; [reflexivity|]); cbn; repeat split;
    intros; discriminate.
Qed.

Lemma tracking_tick_calls (frame_bgr : bgr_image) (m : machine) :
  skip_initialize (self m) = true ->
  let m' := fst (tick frame_bgr m) in
  skip_initialize (self m') = true
  /\ character (self m') = character (self m)
  /\ exists cs, calls m' = calls m ++ cs
                /\ forallb is_evaluation cs = true.
Proof.
  intro Hskip. cbv zeta.
  destruct (perceive frame_bgr m) as [m1 [o|e]] eqn:Ep.
  - rewrite (tick_tracking_ok _ _ _ _ Hskip Ep).
    apply perceive_ok in Ep as (Es & _ & _ & Ec & _).
    destruct (select_action_spec o m1)
      as (m2 & Ea & _ & Ec2 & _ & Esk2 & Ech2 & _).
    destruct (idle_reset_spec (now o) m2)
      as (m3 & Ei & Ec3 & _ & Esk3 & Ech3 & _).
    unfold bind. rewrite Ea, Ei. cbn [fst].
    repeat split; try congruence.
    eexists. split; [rewrite Ec3, Ec2, Ec; reflexivity | reflexivity].
  - rewrite (tick_tracking_raise _ _ _ _ Hskip Ep). cbn [fst].
    pose proof Ep as Ep'.
    apply perceive_raise in Ep as (Es & _ & _).
    repeat split; try congruence.
    revert Ep'. unfold perceive. unfold_M.
    destruct (_is_day_scene _ _) as [day|e1].
    + destruct (_get_dynamic_scale_w _ _) as [scale_w|e2].
      * unfold _threshold_obstacle_frames.
        destruct (_compute_contrasts _) as [cs|e3]; [discriminate|].
        intro E. injection E as <- <-. cbn.
        eexists. rewrite <- !app_assoc. split; reflexivity.
      * intro E. injection E as <- <-. cbn.
        eexists. split; reflexivity.
    + intro E. injection E as <- <-. cbn.
      eexists. split; reflexivity.
Qed.

Lemma play_cons (frame_bgr : bgr_image) (rest : list bgr_image)
    (m : machine) :
  play (frame_bgr :: rest) m =
  match tick frame_bgr m with
  | (m1, Ok _) => play rest m1
  | (m1, Raise e) => (m1, Raise e)
  end.
Proof. reflexivity. Qed.

Lemma play_tracking (frames : list bgr_image) :
  forall m,
    skip_initialize (self m) = true ->
    let m' := fst (play frames m) in
    skip_initialize (self m') = true
    /\ character (self m') = character (self m)
    /\ exists cs, calls m' = calls m ++ cs
                  /\ forallb is_evaluation cs = true.
Proof.
  induction frames as [|f rest IH]; intros m Hskip; cbv zeta.
  - cbn. repeat split; try assumption.
    exists []. now rewrite app_nil_r.
  - rewrite play_cons.
    destruct (tracking_tick_calls f m Hskip) as (Hs & Hc & cs & Ecs & Hcs).
    destruct (tick f m) as [m1 [[]|e]]; cbn [fst] in *.
    + destruct (IH m1 Hs) as (Hs' & Hc' & cs' & Ecs' & Hcs').
      repeat split; try congruence.
      exists (cs ++ cs'). rewrite Ecs', Ecs, app_assoc.
      split; [reflexivity|]. rewrite forallb_app. now rewrite Hcs, Hcs'.
    + repeat split; try assumption. now exists cs.
Qed.

Lemma resize_template_none_iff sw sh (t : option bgr_image) :
  _resize_template sw sh t = None <-> t = None.
Proof. destruct t; cbn; split; congruence. Qed.

Lemma find_dinosaur_no_template (s : DinoBot) (frame_bgr : bgr_image) :
  template_night s = None -> template_day s = None ->
  _find_dinosaur s frame_bgr =
  {| found := Qle_bool (confidence_threshold (params s)) 0;
     max_val := 0; match_top_left := (0, 0)%Z;
     match_h := 0; match_w := 0 |}.
Proof.
  intros En Ed. unfold _find_dinosaur. now rewrite En, Ed.
Qed.

Lemma play_without_templates (frames : list bgr_image) :
  forall m,
    template_night (self m) = None -> template_day (self m) = None ->
    skip_initialize (self m) = false ->
    0 < confidence_threshold (params (self m)) ->
    exists m',
      play frames m = (m', Ok tt)
      /\ events m' = events m
      /\ skip_initialize (self m') = false.
Proof.
  induction frames as [|f rest IH]; intros m En Ed Hskip Hconf.
  - exists m. repeat split; assumption.
  - rewrite play_cons, (tick_searching _ _ Hskip).
    destruct (searching_tick_spec f m)
      as (m1 & E & _ & Ep & Ed1 & En1 & _ & Hnot).
    rewrite E.
    rewrite (find_dinosaur_no_template _ _ En Ed) in Hnot. cbn [found] in Hnot.
    destruct Hnot as [Ev Es].
    { apply Qle_bool_false_iff. assumption. }
    destruct (IH m1) as (m' & Ep' & Ev' & Es'); try congruence.
    exists m'. repeat split; congruence.
Qed.

End Loop.

(** * The claims *)


(** C3. Obstacle test. The test holds exactly when the contrast ratio lies
    strictly between the two thresholds; it fails at 0 when
    [0 <= obstacle_min_contrast] and at 1 when
    [obstacle_max_contrast <= 1]. *)
Theorem is_obstacle_strict (p : DinoParams) :
  (forall r, is_obstacle p r = true <->
             obstacle_min_contrast p < r /\ r < obstacle_max_contrast p)
  /\ (0 <= obstacle_min_contrast p -> is_obstacle p 0 = false)
  /\ (obstacle_max_contrast p <= 1 -> is_obstacle p 1 = false).
Proof.
  unfold is_obstacle. split; [|split].
  - intro r. rewrite andb_true_iff, !Qlt_bool_iff. reflexivity.
  - intro Hmin. apply andb_false_iff. left.
    apply Qlt_bool_false_iff. assumption.
  - intro Hmax. apply andb_false_iff. right.
    apply Qlt_bool_false_iff. assumption.
Qed.

(** C4, as the code behaves. [cv2.threshold] hands back [None] for a band
    without pixels and [_compute_contrasts] reads [f.size] of what it is
    given, so extracting the two bands and computing their contrasts
    raises [AttributeError] exactly when one of the two bands is empty,
    whatever the frame, the box, the mode and the scale. The guard
    [f.size == 0] does answer 0 for an empty array, but no empty array
    reaches it. When both bands have pixels the call returns two contrasts
    in [0, 1]. A band is empty, among other cases, when its first column
    is at or beyond the right edge of the frame. For a box with
    [x, y, h, w >= 0] scanned at [scale_w >= 1] no slice bound is negative
    and each band is the frame clipped to the band's rectangle. *)
Theorem empty_band_raises_attribute_error `{Collaborators}
    (self : DinoBot) (frame_gray : gray_image) (is_day : bool) (scale_w : Q) :
  let middle := middle_obstacle_frame self frame_gray scale_w in
  let bottom := bottom_obstacle_frame self frame_gray scale_w in
  let thresh := _threshold_obstacle_frames self frame_gray is_day scale_w in
  (fst thresh = None <-> size middle = 0%Z)
  /\ (snd thresh = None <-> size bottom = 0%Z)
  /\ (_compute_contrasts [fst thresh; snd thresh] = Raise AttributeError
      <-> size middle = 0%Z \/ size bottom = 0%Z)
  /\ (size middle <> 0%Z -> size bottom <> 0%Z ->
      exists middle_contrast bottom_contrast,
        _compute_contrasts [fst thresh; snd thresh]
        = Ok [middle_contrast; bottom_contrast]
        /\ 0 <= middle_contrast <= 1 /\ 0 <= bottom_contrast <= 1)
  /\ (forall a : gray_image,
        size a = 0%Z -> _compute_contrasts [Some a] = Ok [0])
  /\ ((0 <= fst (band_cols self scale_w))%Z ->
      Forall (fun row =>
                (Z.of_nat (length row) <= fst (band_cols self scale_w))%Z)
             frame_gray ->
      size middle = 0%Z /\ size bottom = 0%Z)
  /\ ((0 <= fst (top_left self))%Z -> (0 <= snd (top_left self))%Z ->
      (0 <= template_h self)%Z -> (0 <= template_w self)%Z ->
      1 <= scale_w ->
      middle = clip_slice2 frame_gray
                 (fst (middle_rows self)) (snd (middle_rows self))
                 (fst (band_cols self scale_w)) (snd (band_cols self scale_w))
      /\ bottom = clip_slice2 frame_gray
                 (fst (bottom_rows self)) (snd (bottom_rows self))
                 (fst (band_cols self scale_w)) (snd (band_cols self scale_w))).
Proof.
  cbv zeta. unfold _threshold_obstacle_frames. cbn [fst snd].
  set (middle := middle_obstacle_frame self frame_gray scale_w).
  set (bottom := bottom_obstacle_frame self frame_gray scale_w).
  assert (Hnone : forall band, binarize is_day band = None
                               <-> size band = 0%Z).
  { intro band. rewrite binarize_cases.
    destruct (size band =? 0)%Z eqn:E.
    - apply Z.eqb_eq in E. tauto.
    - apply Z.eqb_neq in E. split; [discriminate | contradiction]. }
  split; [apply Hnone|]. split; [apply Hnone|].
  split; [|split; [|split; [|split]]].
  - split; [|apply band_contrasts_raise].
    intro E.
    destruct (Z.eq_dec (size middle) 0) as [Em|Em]; [now left|].
    destruct (Z.eq_dec (size bottom) 0) as [Eb|Eb]; [now right|].
    rewrite (band_contrasts_ok is_day middle bottom Em Eb) in E.
    discriminate.
  - intros Em Eb. rewrite (band_contrasts_ok is_day middle bottom Em Eb).
    eexists _, _. split; [reflexivity|].
    split; now apply share_above_range.
  - intros a E. cbn [_compute_contrasts frame_contrast].
    unfold contrast_of. now rewrite E.
  - intros Hc Hall.
    split; apply slice2_beyond_width; assumption.
  - intros Hx Hy Hh Hw Hs.
    destruct (band_cols_nonneg self scale_w Hx Hw Hs) as [Hc0 Hc1].
    pose proof (Z.div_pos (template_h self) 2 Hh eq_refl) as Hd.
    unfold middle, bottom, middle_obstacle_frame, bottom_obstacle_frame.
    rewrite middle_rows_eq, bottom_rows_eq, py_int_half by assumption.
    cbn [fst snd]. split; apply slice2_clip; lia.
Qed.

(** C7, as amended. For a character box with [x, y, h, w >= 0] scanned at
    [scale_w >= 1] (coordinates below 2^40): the extractor works in the
    vertical window of top [y - 0.5 h] and height [1.5 h]; the middle band
    takes the rows of its middle third, which are the rows [y] to
    [y + h / 2] of the frame, and the bottom band those of its last third,
    the rows [y + h / 2] to [y + h]. Both take the columns
    [int(x + (scale_w - 1) w)] to [int(x + scale_w w)], every operation
    being one of doubles: the band starts at the character's column or
    ahead of it, is never reversed, and is [w] pixels wide give or take
    one; at an integer scale the columns are exactly [x + (k - 1) w] to
    [x + k w]. Pixel for pixel a band is that rectangle of the frame, cut
    at the frame's edges. A band that has pixels is binarized pixel by
    pixel, at 180 by day and at Otsu's threshold of the band by night. *)
Theorem threshold_obstacle_frames_geometry `{Collaborators}
    (self : DinoBot) (frame_gray : gray_image) (is_day : bool) (scale_w : Q) :
  let x := fst (top_left self) in
  let y := snd (top_left self) in
  let h := template_h self in
  let w := template_w self in
  let top' := inject_Z y - (1 # 2) * inject_Z h in
  let height' := (3 # 2) * inject_Z h in
  let c0 := fst (band_cols self scale_w) in
  let c1 := snd (band_cols self scale_w) in
  let middle := middle_obstacle_frame self frame_gray scale_w in
  let bottom := bottom_obstacle_frame self frame_gray scale_w in
  (0 <= x)%Z -> (0 <= y)%Z -> (0 <= h)%Z -> (0 <= w)%Z ->
  1 <= scale_w ->
  inject_Z x + scale_w * inject_Z w <= inject_Z (2 ^ 40) ->
  (middle_rows self
   = (py_int (top' + height' / 3), py_int (top' + 2 * height' / 3))
   /\ middle_rows self = (y, y + h / 2)%Z)
  /\ (bottom_rows self
      = (py_int (top' + 2 * height' / 3), py_int (top' + height'))
      /\ bottom_rows self = (y + h / 2, y + h)%Z)
  /\ (c0 = py_int (round64 (inject_Z x
                            + round64 (round64 (scale_w - 1) * inject_Z w)))
      /\ c1 = py_int (round64 (inject_Z x
                               + round64 (scale_w * inject_Z w))))
  /\ (x <= c0 <= c1)%Z
  /\ (w - 1 <= c1 - c0 <= w + 1)%Z
  /\ (forall k : Z, (1 <= k < 2 ^ 53)%Z -> scale_w == inject_Z k ->
        c0 = (x + (k - 1) * w)%Z /\ c1 = (x + k * w)%Z)
  /\ (forall i j : nat,
        pixel middle i j =
        if ((Z.of_nat i <? h / 2)%Z && (Z.of_nat j <? c1 - c0)%Z)%bool
        then pixel frame_gray (Z.to_nat y + i) (Z.to_nat c0 + j)
        else None)
  /\ (forall i j : nat,
        pixel bottom i j =
        if ((Z.of_nat i <? h - h / 2)%Z && (Z.of_nat j <? c1 - c0)%Z)%bool
        then pixel frame_gray (Z.to_nat (y + h / 2) + i) (Z.to_nat c0 + j)
        else None)
  /\ _threshold_obstacle_frames self frame_gray is_day scale_w
     = (binarize is_day middle, binarize is_day bottom)
  /\ (forall band : gray_image, size band <> 0%Z ->
        binarize true band = Some (threshold_binary 180 band)
        /\ binarize false band = Some (threshold_binary (otsu band) band))
  /\ (forall (t : Z) (band : gray_image) (i j : nat),
        pixel (threshold_binary t band) i j
        = option_map (binary_pixel t) (pixel band i j)).
Proof.
  cbv zeta. intros Hx Hy Hh Hw Hs Hb.
  pose proof (Z.div_pos (template_h self) 2 Hh eq_refl) as Hd.
  assert (Em : middle_rows self
               = (snd (top_left self),
                  (snd (top_left self) + template_h self / 2)%Z)).
  { rewrite middle_rows_eq, py_int_half by assumption. reflexivity. }
  assert (Eb : bottom_rows self
               = ((snd (top_left self) + template_h self / 2)%Z,
                  (snd (top_left self) + template_h self)%Z)).
  { rewrite bottom_rows_eq, py_int_half by assumption. reflexivity. }
  destruct (band_cols_width self scale_w Hx Hw Hs Hb) as [Hc Hwd].
  cbv zeta in Hc, Hwd.
  assert (Hb' := Hb). change (inject_Z (2 ^ 40)) with 1099511627776 in Hb'.
  pose proof (inject_Z_nonneg _ Hx) as HX.
  pose proof (inject_Z_nonneg _ Hw) as HW.
  assert (HP : 0 <= (scale_w - 1) * inject_Z (template_w self))
    by (apply Qmult_le_0_compat; lra).
  assert (Hx53 : (- 2 ^ 53 < fst (top_left self) < 2 ^ 53)%Z).
  { assert (Hle : inject_Z (fst (top_left self)) <= inject_Z 1099511627776)
      by (change (inject_Z 1099511627776) with 1099511627776; lra).
    rewrite <- Zle_Qle in Hle. change (2 ^ 53)%Z with 9007199254740992%Z.
    lia. }
  assert (Hw53 : (- 2 ^ 53 < template_w self < 2 ^ 53)%Z).
  { assert (Hle : inject_Z (template_w self) <= inject_Z 1099511627776)
      by (change (inject_Z 1099511627776) with 1099511627776; lra).
    rewrite <- Zle_Qle in Hle. change (2 ^ 53)%Z with 9007199254740992%Z.
    lia. }
  assert (Hshift : forall a b c : Z,
             ((a + b <? a + c) = (b <? c))%Z).
  { intros a b c.
    destruct (Z.ltb_spec (a + b) (a + c)), (Z.ltb_spec b c);
      try reflexivity; lia. }
  assert (Hshift' : forall a b c : Z,
             ((a + b <? c) = (b <? c - a))%Z).
  { intros a b c.
    destruct (Z.ltb_spec (a + b) c), (Z.ltb_spec b (c - a));
      try reflexivity; lia. }
  split; [split; [reflexivity | exact Em]|].
  split; [split; [reflexivity | exact Eb]|].
  split.
  { rewrite (band_cols_eq self scale_w Hx53 Hw53). split; reflexivity. }
  split; [exact Hc|]. split; [exact Hwd|].
  split.
  { intros k Hk Ek.
    rewrite (band_cols_integer_scale self scale_w k Hx Hw Hk Ek Hb).
    split; reflexivity. }
  split.
  { intros i j. unfold middle_obstacle_frame. rewrite Em. cbn [fst snd].
    rewrite pixel_slice2 by lia. now rewrite Hshift, Hshift'. }
  split.
  { intros i j. unfold bottom_obstacle_frame. rewrite Eb. cbn [fst snd].
    rewrite pixel_slice2 by lia. rewrite Hshift'.
    replace (snd (top_left self) + template_h self
             - (snd (top_left self) + template_h self / 2))%Z
      with (template_h self - template_h self / 2)%Z by lia.
    now rewrite Hshift'. }
  split; [reflexivity|].
  split.
  { intros band Hne. rewrite !binarize_cases.
    apply Z.eqb_neq in Hne. rewrite Hne. split; reflexivity. }
  intros t band i j. apply pixel_threshold_binary.
Qed.


(** C9, as amended. A template is resized to [max(1, int(orig_w * (screen_w
    / 1920)))] by [max(1, int(orig_h * (screen_h / 1080)))], the quotient
    and the product being rounded to doubles: the scaled size is
    truncated, never rounded up, then raised to at least one pixel, and
    the resize uses [INTER_AREA]. On a screen of non-negative size the
    result is above the exact scaled size less one (up to the rounding of
    three float operations) and, once that size reaches 1, not above it;
    no template gives no template. *)
Theorem resize_template_truncates `{Collaborators}
    (screen_width screen_height : Z) (template : bgr_image) :
  let scale_w := round64 (inject_Z screen_width / 1920) in
  let scale_h := round64 (inject_Z screen_height / 1080) in
  let fw := round64 (round64 (inject_Z (shape1 template)) * scale_w) in
  let fh := round64 (round64 (inject_Z (shape0 template)) * scale_h) in
  let w := new_width screen_width template in
  let h := new_height screen_height template in
  _resize_template screen_width screen_height (Some template)
  = Some (cv2_resize template (w, h) INTER_AREA)
  /\ w = Z.max 1 (py_int fw) /\ h = Z.max 1 (py_int fh)
  /\ (1 <= w)%Z /\ (1 <= h)%Z
  /\ (1 <= fw -> inject_Z w <= fw /\ fw < inject_Z w + 1)
  /\ (1 <= fh -> inject_Z h <= fh /\ fh < inject_Z h + 1)
  /\ (fw < 1 -> w = 1%Z) /\ (fh < 1 -> h = 1%Z)
  /\ ((0 <= screen_width)%Z ->
      let exact :=
        inject_Z (shape1 template) * inject_Z screen_width / 1920 in
      exact * (1 - 3 * unit_roundoff) - 1 < inject_Z w
      /\ (1 <= exact -> inject_Z w <= exact * (1 + 4 * unit_roundoff)))
  /\ ((0 <= screen_height)%Z ->
      let exact :=
        inject_Z (shape0 template) * inject_Z screen_height / 1080 in
      exact * (1 - 3 * unit_roundoff) - 1 < inject_Z h
      /\ (1 <= exact -> inject_Z h <= exact * (1 + 4 * unit_roundoff)))
  /\ _resize_template screen_width screen_height None = None.
Proof.
  cbv zeta.
  destruct (shape_nonneg template) as [H0 H1].
  destruct (scaled_length_trunc (shape1 template)
              (int_truediv screen_width orig_width)) as [Tw1 Tw2].
  destruct (scaled_length_trunc (shape0 template)
              (int_truediv screen_height orig_height)) as [Th1 Th2].
  split; [reflexivity|]. split; [reflexivity|]. split; [reflexivity|].
  split; [apply scaled_length_ge_1|]. split; [apply scaled_length_ge_1|].
  split; [exact Tw1|]. split; [exact Th1|].
  split; [exact Tw2|]. split; [exact Th2|].
  split.
  { intro Hs.
    apply (scaled_length_exact (shape1 template) screen_width 1920);
      [assumption | assumption | reflexivity]. }
  split; [|reflexivity].
  intro Hs.
  apply (scaled_length_exact (shape0 template) screen_height 1080);
    [assumption | assumption | reflexivity].
Qed.

Section LoopClaims.
Context `{Collaborators}.



(** C6. No second search. From a tracking state, any number of ticks
    keeps the state tracking, keeps the cached character, and never calls
    [_find_dinosaur]. A tick of the searching state calls [_find_dinosaur]
    and nothing else: no scene classification, no obstacle evaluation. So
    in the call log of any run, from any state, every localisation comes
    before every classification or evaluation. *)
Theorem tracking_never_searches_again (frames : list bgr_image)
    (m : machine) :
  let m' := fst (play frames m) in
  (skip_initialize (self m) = true ->
   skip_initialize (self m') = true
   /\ character (self m') = character (self m)
   /\ exists cs, calls m' = calls m ++ cs
                 /\ ~ In Call_find_dinosaur cs)
  /\ (skip_initialize (self m) = false ->
      forall frame_bgr,
        calls (fst (tick frame_bgr m)) = calls m ++ [Call_find_dinosaur])
  /\ (exists (k : nat) cs,
        calls m' = calls m ++ repeat Call_find_dinosaur k ++ cs
        /\ ~ In Call_find_dinosaur cs).
Proof.
  assert (Hno : forall cs, forallb is_evaluation cs = true ->
                           ~ In Call_find_dinosaur cs).
  { intros cs Hall Hin. rewrite forallb_forall in Hall.
    specialize (Hall _ Hin). discriminate. }
  cbv zeta. split; [|split].
  - intro Hskip.
    destruct (play_tracking frames m Hskip) as (? & ? & cs & ? & ?).
    repeat split; try assumption. exists cs. split; auto.
  - intros Hskip frame_bgr. rewrite (tick_searching _ _ Hskip).
    destruct (searching_tick_spec frame_bgr m) as (m1 & E & Ec & _).
    now rewrite E.
  - revert m. induction frames as [|f rest IH]; intro m.
    + exists 0%nat, []. cbn. split; [now rewrite app_nil_r | tauto].
    + destruct (skip_initialize (self m)) eqn:Hskip.
      * destruct (play_tracking (f :: rest) m Hskip) as (_ & _ & cs & E & Hcs).
        exists 0%nat, cs. cbn [repeat app]. split; auto.
      * rewrite play_cons, (tick_searching _ _ Hskip).
        destruct (searching_tick_spec f m) as (m1 & E & Ec & _).
        rewrite E.
        destruct (IH m1) as (k & cs & Ek & Hcs).
        exists (S k), cs. split; [|assumption].
        rewrite Ek, Ec, <- app_assoc. reflexivity.
Qed.

(** C10, as amended. Construction succeeds whatever the two image reads
    gave, a template being absent exactly when its image was. With one
    template absent, localisation is the match against the other one on
    every frame. With both absent it reports score 0, which is a find only
    for a non-positive confidence threshold; under a positive one the loop
    searches for ever and presses no key. *)
Theorem startup_tolerates_missing_templates
    (screen_width screen_height : Z) (p : DinoParams)
    (original_day original_night : option bgr_image) :
  (exists bot,
      __init__ screen_width screen_height p original_day original_night
      = Ok bot
      /\ params bot = p
      /\ skip_initialize bot = false
      /\ (template_day bot = None <-> original_day = None)
      /\ (template_night bot = None <-> original_night = None))
  /\ (forall (s : DinoBot) (frame_bgr : bgr_image) (t : bgr_image),
        template_night s = None -> template_day s = Some t ->
        _find_dinosaur s frame_bgr = find_with (params s) frame_bgr t)
  /\ (forall (s : DinoBot) (frame_bgr : bgr_image) (t : bgr_image),
        template_night s = Some t -> template_day s = None ->
        _find_dinosaur s frame_bgr = find_with (params s) frame_bgr t)
  /\ (forall (s : DinoBot) (frame_bgr : bgr_image),
        template_night s = None -> template_day s = None ->
        found (_find_dinosaur s frame_bgr)
        = Qle_bool (confidence_threshold (params s)) 0)
  /\ (forall (frames : list bgr_image) (m : machine),
        template_night (self m) = None -> template_day (self m) = None ->
        skip_initialize (self m) = false ->
        0 < confidence_threshold (params (self m)) ->
        exists m',
          play frames m = (m', Ok tt)
          /\ events m' = events m
          /\ skip_initialize (self m') = false).
Proof.
  split; [|split; [|split; [|split]]].
  - eexists. split; [reflexivity|]. cbn.
    repeat split; try apply resize_template_none_iff;
      intro E; now apply resize_template_none_iff.
  - intros s frame_bgr t En Ed.
    unfold _find_dinosaur, find_with. rewrite En, Ed. cbn.
    destruct (match_template frame_bgr t) as [score loc].
    now destruct (Qlt_bool 0 score).
  - intros s frame_bgr t En Ed.
    unfold _find_dinosaur, find_with. rewrite En, Ed. cbn.
    destruct (match_template frame_bgr t) as [score loc].
    now destruct (Qlt_bool 0 score).
  - intros s frame_bgr En Ed.
    now rewrite find_dinosaur_no_template.
  - intros. now apply play_without_templates.
Qed.

End LoopClaims.

(** * The claims on the sample scene *)



Lemma is_obstacle_strict_witness :
  is_obstacle default_params (1 # 2) = true
  /\ is_obstacle default_params 0 = false
  /\ is_obstacle default_params 1 = false.
Proof.
  destruct (is_obstacle_strict default_params) as (Hiff & Hzero & Hone).
  split; [|split].
  - apply Hiff. simpl. lra.
  - apply Hzero. simpl. lra.
  - apply Hone. simpl. lra.
Defined.


(** The box at column 4 of the 8-column frame, scanned at scale 4: the
    columns 10 to 12 are beyond the frame, both bands are empty, and the
    tick raises. *)
Lemma empty_band_raises_attribute_error_witness :
  let s := Sample.bot_at 4 2 2 2 in
  let frame_gray := map (map Sample.gray_of) Sample.clear_frame in
  band_cols s 4 = (10, 12)%Z
  /\ middle_obstacle_frame s frame_gray 4 = [[]]
  /\ @_threshold_obstacle_frames (Sample.collaborators 40) s frame_gray true 4
     = (None, None)
  /\ _compute_contrasts
       [fst (@_threshold_obstacle_frames (Sample.collaborators 40)
               s frame_gray true 4);
        snd (@_threshold_obstacle_frames (Sample.collaborators 40)
               s frame_gray true 4)]
     = Raise AttributeError
  /\ exists m',
       @tick (Sample.collaborators 40) Sample.clear_frame (Sample.machine_of s)
       = (m', Raise AttributeError).
Proof.
  cbv zeta.
  split; [vm_compute; reflexivity|].
  split; [vm_compute; reflexivity|].
  split; [vm_compute; reflexivity|].
  split.
  - destruct (@empty_band_raises_attribute_error (Sample.collaborators 40)
                (Sample.bot_at 4 2 2 2)
                (map (map Sample.gray_of) Sample.clear_frame) true 4)
      as (_ & _ & W & _).
    apply W. left. vm_compute. reflexivity.
  - eexists. vm_compute. reflexivity.
Defined.



Lemma tracking_never_searches_again_witness :
  let run := @play (Sample.collaborators 0)
               [Sample.clear_frame; Sample.cactus_frame; Sample.bird_frame]
               (Sample.machine_of (Sample.bot default_params true 0 0)) in
  skip_initialize (self (fst run)) = true
  /\ character (self (fst run)) = ((0, 2), 2, 2)%Z
  /\ exists cs, calls (fst run) = cs /\ ~ In Call_find_dinosaur cs.
Proof.
  cbv zeta.
  destruct (@tracking_never_searches_again (Sample.collaborators 0)
              [Sample.clear_frame; Sample.cactus_frame; Sample.bird_frame]
              (Sample.machine_of (Sample.bot default_params true 0 0)))
    as (W & _).
  destruct (W eq_refl) as (Hs & Hc & cs & Ecs & Hno).
  split; [exact Hs | split; [exact Hc|]].
  exists cs. split; [exact Ecs | exact Hno].
Defined.

Lemma threshold_obstacle_frames_geometry_witness :
  let s := Sample.bot_at 0 2 2 2 in
  let frame_gray := map (map Sample.gray_of) Sample.bird_frame in
  (fst (band_cols s 4) = 6 /\ snd (band_cols s 4) = 8)%Z
  /\ (forall i j : nat,
        pixel (middle_obstacle_frame s frame_gray 4) i j =
        if ((Z.of_nat i <? 2 / 2)%Z
            && (Z.of_nat j <? snd (band_cols s 4) - fst (band_cols s 4))%Z)%bool
        then pixel frame_gray (Z.to_nat 2 + i)
                   (Z.to_nat (fst (band_cols s 4)) + j)
        else None).
Proof.
  cbv zeta.
  destruct (@threshold_obstacle_frames_geometry (Sample.collaborators 0)
              (Sample.bot_at 0 2 2 2)
              (map (map Sample.gray_of) Sample.bird_frame) true 4)
    as (_ & _ & _ & _ & _ & Hk & Hm & _);
    [vm_compute; discriminate ..|].
  split; [|exact Hm].
  apply (Hk 4%Z); [split; [lia | reflexivity] | reflexivity].
Defined.

(** With the scale 1.5833333333333333 of the first second and a template
    12 pixels wide at column 0 the columns are 6 to 19, a band 13 pixels
    wide. At the scale 1/2 the first column of the box at the left edge is
    -1, which the slice counts from the right edge: the band is empty. *)
Lemma scan_band_is_not_always_template_wide :
  let s := Sample.bot_at 0 2 2 12 in
  let scale_w := More.scale_after_one_second in
  1 <= scale_w
  /\ template_w s = 12%Z
  /\ band_cols s scale_w = (6, 19)%Z
  /\ middle_obstacle_frame s More.wide_frame scale_w
     = [repeat 255%Z 13]
  /\ band_cols (Sample.bot_at 0 0 2 2) (1 # 2) = (-1, 1)%Z
  /\ middle_obstacle_frame (Sample.bot_at 0 0 2 2)
       (map (map Sample.gray_of) Sample.clear_frame) (1 # 2) = [[]].
Proof.
  cbv zeta. split; [vm_compute; discriminate|].
  repeat split; vm_compute; reflexivity.
Qed.


(** Five pixels on a screen 1440 wide scale to 3.75: the code asks for 3,
    rounding for 4. Ninety pixels on a screen 1344 wide scale to 63, but
    the double nearest to 1344 / 1920 is below 0.7 and the product is
    62.99999999999999: the code asks for 62. *)
Lemma resize_template_not_rounded :
  new_width 1440 Sample.strip = 3%Z
  /\ spec_new_width 1440 Sample.strip = 4%Z
  /\ inject_Z (shape1 Sample.strip) * (1440 / 1920) == 375 # 100
  /\ new_width 1344 More.banner = 62%Z
  /\ spec_new_width 1344 More.banner = 63%Z
  /\ inject_Z (shape1 More.banner) * (1344 / 1920) == 63.
Proof. repeat split; vm_compute; reflexivity. Qed.

Lemma startup_tolerates_missing_templates_witness :
  exists m',
    @play (Sample.collaborators 0)
          [Sample.clear_frame; Sample.cactus_frame]
          (Sample.machine_of Sample.blind_bot)
    = (m', Ok tt)
    /\ events m' = []
    /\ skip_initialize (self m') = false.
Proof.
  destruct (@startup_tolerates_missing_templates (Sample.collaborators 0)
              1920 1080 default_params None None)
    as (_ & _ & _ & _ & W).
  apply (W [Sample.clear_frame; Sample.cactus_frame]
           (Sample.machine_of Sample.blind_bot));
    try reflexivity.
Defined.

Lemma startup_without_templates_succeeds :
  spec_startup_fails None None = true
  /\ exists bot,
       @__init__ (Sample.collaborators 0) 1920 1080 default_params
                     None None = Ok bot
       /\ template_day bot = None /\ template_night bot = None.
Proof.
  split; [reflexivity|]. eexists. split; [reflexivity|]. split; reflexivity.
Qed.

(** * Further properties of the code *)

(** X1. [_get_dynamic_scale_w] raises exactly at a zero [late_game_time] with a
    negative elapsed time. *)
Theorem get_dynamic_scale_w_raises_iff (p : DinoParams) (t : Q) :
  (exists e, _get_dynamic_scale_w p t = Raise e)
  <-> late_game_time p == 0 /\ t < 0.
Proof.
  unfold _get_dynamic_scale_w, py_div.
  destruct (Qle_bool (late_game_time p) t) eqn:El.
  - apply Qle_bool_iff in El. split.
    + intros [e E]. discriminate.
    + intros [E0 Ht]. lra.
  - apply Qle_bool_false_iff in El.
    destruct (Qeq_bool (late_game_time p) 0) eqn:E0.
    + apply Qeq_bool_iff in E0. split.
      * intros _. split; [assumption | lra].
      * intros _. now exists ZeroDivisionError.
    + split.
      * intros [e E]. discriminate.
      * intros [E Ht]. apply Qeq_bool_iff in E. congruence.
Qed.



(** X3. On arrays [_compute_contrasts] never raises, whatever their number
    and their sizes: it gives one ratio per frame, each in [0, 1]. *)
Theorem compute_contrasts_total (frames : list gray_image) :
  exists cs,
    _compute_contrasts (map Some frames) = Ok cs
    /\ length cs = length frames
    /\ Forall (fun c => 0 <= c /\ c <= 1) cs.
Proof.
  induction frames as [|f rest (cs & E & Hl & Hall)].
  - exists []. repeat split. constructor.
  - destruct (contrast_of_range f) as (c & Ec & H0 & H1 & _).
    exists (c :: cs). cbn [map _compute_contrasts frame_contrast].
    rewrite Ec, E. repeat split.
    + cbn. now rewrite Hl.
    + constructor; [split; assumption | assumption].
Qed.

(** X4. When both bands have pixels, the two contrasts a tick computes are
    the shares of the pixels of the two bands that are strictly brighter
    than the threshold: 180 by day, Otsu's threshold of the band by
    night; both shares lie in [0, 1]. *)
Theorem contrasts_are_shares_of_bright_pixels `{Collaborators}
    (self : DinoBot) (frame_gray : gray_image) (is_day : bool) (scale_w : Q) :
  let middle := middle_obstacle_frame self frame_gray scale_w in
  let bottom := bottom_obstacle_frame self frame_gray scale_w in
  let thresh := _threshold_obstacle_frames self frame_gray is_day scale_w in
  size middle <> 0%Z -> size bottom <> 0%Z ->
  _compute_contrasts [fst thresh; snd thresh]
  = Ok [share_above (if is_day then 180%Z else otsu middle) middle;
        share_above (if is_day then 180%Z else otsu bottom) bottom]
  /\ (forall t, 0 <= share_above t middle /\ share_above t middle <= 1)
  /\ (forall t, 0 <= share_above t bottom /\ share_above t bottom <= 1).
Proof.
  cbv zeta. intros Hm Hb. unfold _threshold_obstacle_frames. cbn [fst snd].
  split; [now apply band_contrasts_ok|].
  split; intro t; now apply share_above_range.
Qed.

(** X5. Scene classification never raises; a saturation share cannot beat a
    threshold of 1 or more, a sky without a saturated pixel is not day
    under a non-negative threshold, and a sky of saturated pixels only is
    day under any threshold below 1. *)
Theorem is_day_scene_edges (self : DinoBot) (frame_gray : gray_image) :
  let sky := sky_region self frame_gray in
  (exists day, _is_day_scene self frame_gray = Ok day)
  /\ (1 <= day_threshold (params self) ->
      _is_day_scene self frame_gray = Ok false)
  /\ (0 <= day_threshold (params self) -> count_255 sky = 0%Z ->
      _is_day_scene self frame_gray = Ok false)
  /\ (day_threshold (params self) < 1 -> size sky <> 0%Z ->
      count_255 sky = size sky ->
      _is_day_scene self frame_gray = Ok true).
Proof.
  cbv zeta. unfold _is_day_scene.
  set (sky := sky_region self frame_gray).
  pose proof (count_255_le_size sky) as [Hc Hs].
  destruct (size sky =? 0)%Z eqn:E.
  - repeat split; try (now eexists).
    intros _ Hne. apply Z.eqb_eq in E. contradiction.
  - apply Z.eqb_neq in E.
    assert (Hpos : 0 < inject_Z (size sky)) by (apply inject_Z_pos; lia).
    rewrite py_div_ok by lra.
    assert (Hr1 : inject_Z (count_255 sky) / inject_Z (size sky) <= 1).
    { apply Qle_shift_div_r; [assumption|].
      rewrite Qmult_1_l. now rewrite <- Zle_Qle. }
    repeat split.
    + now eexists.
    + intro Ht. f_equal. apply Qlt_bool_false_iff. lra.
    + intros Ht E0. f_equal. apply Qlt_bool_false_iff.
      rewrite E0. unfold Qdiv. rewrite Qmult_0_l. assumption.
    + intros Ht _ Eall. f_equal. apply Qlt_bool_iff.
      rewrite Eall.
      assert (Eq : inject_Z (size sky) / inject_Z (size sky) == 1)
        by (field; lra).
      lra.
Qed.

(** X6. At the resolution the templates were drawn for, a template (of a
    size a double holds) keeps its size; the size asked for grows with the
    screen and, on a screen not larger than the reference one, never
    exceeds the template's own. *)
Theorem new_size_follows_screen (template : bgr_image) :
  ((shape1 template < 2 ^ 53)%Z ->
   new_width 1920 template = Z.max 1 (shape1 template))
  /\ ((shape0 template < 2 ^ 53)%Z ->
      new_height 1080 template = Z.max 1 (shape0 template))
  /\ (forall w1 w2 : Z, (w1 <= w2)%Z ->
        (new_width w1 template <= new_width w2 template)%Z)
  /\ (forall h1 h2 : Z, (h1 <= h2)%Z ->
        (new_height h1 template <= new_height h2 template)%Z)
  /\ (forall w : Z, (shape1 template < 2 ^ 53)%Z -> (w <= 1920)%Z ->
        (new_width w template <= Z.max 1 (shape1 template))%Z)
  /\ (forall h : Z, (shape0 template < 2 ^ 53)%Z -> (h <= 1080)%Z ->
        (new_height h template <= Z.max 1 (shape0 template))%Z).
Proof.
  split; [apply new_width_at_reference|].
  split; [apply new_height_at_reference|].
  split; [apply new_width_mono|]. split; [apply new_height_mono|].
  split.
  - intros w Hb Hw. rewrite <- (new_width_at_reference template Hb).
    now apply new_width_mono.
  - intros h Hb Hh. rewrite <- (new_height_at_reference template Hb).
    now apply new_height_mono.
Qed.

Section Localisation.
Context `{Collaborators}.

(** What the loop over the two templates has found after both turns. *)
Lemma find_dinosaur_cases (s : DinoBot) (frame_bgr : bgr_image) :
  let mt := _find_dinosaur s frame_bgr in
  found mt = Qle_bool (confidence_threshold (params s)) (max_val mt)
  /\ ((max_val mt = 0 /\ match_top_left mt = (0, 0)%Z
       /\ match_h mt = 0%Z /\ match_w mt = 0%Z
       /\ forall t, loaded s t -> fst (match_template frame_bgr t) <= 0)
      \/ (exists t, loaded s t
            /\ match_template frame_bgr t = (max_val mt, match_top_left mt)
            /\ match_h mt = shape0 t /\ match_w mt = shape1 t
            /\ 0 < max_val mt
            /\ forall t', loaded s t' ->
                 fst (match_template frame_bgr t') <= max_val mt)).
Proof.
  cbv zeta. unfold _find_dinosaur, loaded.
  destruct (template_night s) as [tn|], (template_day s) as [td|];
    cbn [fold_left try_template].
  - destruct (match_template frame_bgr tn) as [vn ln] eqn:En.
    destruct (Qlt_bool 0 vn) eqn:Hn.
    + destruct (match_template frame_bgr td) as [vd ld] eqn:Ed.
      destruct (Qlt_bool vn vd) eqn:Hd; cbn; (split; [reflexivity|]);
        right; qbool.
      * exists td. repeat split; auto; try lra.
        intros t' [E|E]; injection E as <-; rewrite ?En, ?Ed; cbn; lra.
      * exists tn. repeat split; auto.
        intros t' [E|E]; injection E as <-; rewrite ?En, ?Ed; cbn; lra.
    + destruct (match_template frame_bgr td) as [vd ld] eqn:Ed.
      destruct (Qlt_bool 0 vd) eqn:Hd; cbn; (split; [reflexivity|]); qbool.
      * right. exists td. repeat split; auto.
        intros t' [E|E]; injection E as <-; rewrite ?En, ?Ed; cbn; lra.
      * left. repeat split.
        intros t' [E|E]; injection E as <-; rewrite ?En, ?Ed; cbn; lra.
  - destruct (match_template frame_bgr tn) as [vn ln] eqn:En.
    destruct (Qlt_bool 0 vn) eqn:Hn; cbn; (split; [reflexivity|]); qbool.
    + right. exists tn. repeat split; auto.
      intros t' [E|E]; [injection E as <- | discriminate].
      rewrite En. cbn. lra.
    + left. repeat split.
      intros t' [E|E]; [injection E as <- | discriminate].
      rewrite En. cbn. lra.
  - destruct (match_template frame_bgr td) as [vd ld] eqn:Ed.
    destruct (Qlt_bool 0 vd) eqn:Hd; cbn; (split; [reflexivity|]); qbool.
    + right. exists td. repeat split; auto.
      intros t' [E|E]; [discriminate | injection E as <-].
      rewrite Ed. cbn. lra.
    + left. repeat split.
      intros t' [E|E]; [discriminate | injection E as <-].
      rewrite Ed. cbn. lra.
  - cbn. split; [reflexivity|]. left. repeat split.
    intros t' [E|E]; discriminate.
Qed.

(** X7. Localisation reports the best score among the templates it has, never
    below 0, and finds the character exactly when that score reaches the
    confidence threshold. A positive best score comes with the place of
    that match and the height and width of the template that gave it; when
    no template scores above 0 the report is score 0 at (0, 0) with size
    0. So a find under a positive threshold always carries the size of a
    loaded template. *)
Theorem find_dinosaur_best_match (s : DinoBot) (frame_bgr : bgr_image) :
  let mt := _find_dinosaur s frame_bgr in
  0 <= max_val mt
  /\ (forall t, loaded s t ->
        fst (match_template frame_bgr t) <= max_val mt)
  /\ (found mt = true <-> confidence_threshold (params s) <= max_val mt)
  /\ (0 < max_val mt ->
      exists t, loaded s t
        /\ match_template frame_bgr t = (max_val mt, match_top_left mt)
        /\ match_h mt = shape0 t /\ match_w mt = shape1 t)
  /\ (max_val mt <= 0 ->
      max_val mt = 0 /\ match_top_left mt = (0, 0)%Z
      /\ match_h mt = 0%Z /\ match_w mt = 0%Z)
  /\ (0 < confidence_threshold (params s) -> found mt = true ->
      exists t, loaded s t
        /\ match_top_left mt = snd (match_template frame_bgr t)
        /\ match_h mt = shape0 t /\ match_w mt = shape1 t).
Proof.
  cbv zeta.
  destruct (find_dinosaur_cases s frame_bgr) as [Ef Hc].
  cbv zeta in Ef, Hc. rewrite Ef. rewrite Qle_bool_iff.
  destruct Hc as [(E0 & El & Eh & Ew & Hall)
                 |(t & Ht & Em & Eh & Ew & Hpos & Hall)].
  - rewrite E0 in *. repeat split; auto; intros; lra.
  - repeat split; auto; intros; try lra;
      exists t; rewrite ?Em; auto.
Qed.

(** X8. With both templates loaded and the night template scoring above 0, the
    day template wins only with a strictly greater score. *)
Theorem find_dinosaur_prefers_night (s : DinoBot) (frame_bgr : bgr_image)
    (tn td : bgr_image) :
  template_night s = Some tn -> template_day s = Some td ->
  0 < fst (match_template frame_bgr tn) ->
  let mt := _find_dinosaur s frame_bgr in
  (fst (match_template frame_bgr td) <= fst (match_template frame_bgr tn) ->
   match_template frame_bgr tn = (max_val mt, match_top_left mt)
   /\ match_h mt = shape0 tn /\ match_w mt = shape1 tn)
  /\ (fst (match_template frame_bgr tn) < fst (match_template frame_bgr td) ->
      match_template frame_bgr td = (max_val mt, match_top_left mt)
      /\ match_h mt = shape0 td /\ match_w mt = shape1 td).
Proof.
  intros En Ed Hpos. cbv zeta. unfold _find_dinosaur. rewrite En, Ed.
  cbn [fold_left try_template].
  destruct (match_template frame_bgr tn) as [vn ln].
  destruct (match_template frame_bgr td) as [vd ld].
  cbn [fst] in *.
  apply Qlt_bool_iff in Hpos as Hb. rewrite Hb.
  destruct (Qlt_bool vn vd) eqn:Hd; cbn; qbool; split; intro;
    try lra; repeat split.
Qed.

End Localisation.

Lemma firstn_skipn_app {A} (l : list A) (i j k : nat) :
  (i <= j)%nat -> (j <= k)%nat ->
  firstn (j - i) (skipn i l) ++ firstn (k - j) (skipn j l)
  = firstn (k - i) (skipn i l).
Proof.
  intros Hij Hjk.
  replace (skipn j l) with (skipn (j - i) (skipn i l))
    by (rewrite skipn_skipn; f_equal; lia).
  replace (k - i)%nat with ((j - i) + (k - j))%nat by lia.
  generalize (skipn i l) as l'. generalize (j - i)%nat as a.
  induction a as [|a IH]; intro l'; [reflexivity|].
  destruct l' as [|x l']; cbn.
  - now rewrite !firstn_nil.
  - now rewrite IH.
Qed.

Lemma py_slice_app {A} (l : list A) (a b c : Z) :
  (0 <= a)%Z -> (a <= b)%Z -> (b <= c)%Z ->
  py_slice l a b ++ py_slice l b c = py_slice l a c.
Proof.
  intros Ha Hab Hbc. unfold py_slice.
  rewrite !py_slice_bound_nonneg by lia.
  set (len := Z.of_nat (length l)).
  replace (Z.to_nat (Z.min b len - Z.min a len))
    with (Z.to_nat (Z.min b len) - Z.to_nat (Z.min a len))%nat by lia.
  replace (Z.to_nat (Z.min c len - Z.min b len))
    with (Z.to_nat (Z.min c len) - Z.to_nat (Z.min b len))%nat by lia.
  replace (Z.to_nat (Z.min c len - Z.min a len))
    with (Z.to_nat (Z.min c len) - Z.to_nat (Z.min a len))%nat by lia.
  apply firstn_skipn_app; lia.
Qed.

(** X9. The two bands lie on the character's own rows: for a character at row
    [y >= 0] of height [h >= 0], the middle band takes the rows from [y]
    to [y + h / 2] (integer division), the bottom band the rows from there
    to [y + h], and stacked they are the slice of the frame on the rows
    [y] to [y + h] and the columns of the scan. *)
Theorem bands_tile_character_rows (self : DinoBot) (frame_gray : gray_image)
    (scale_w : Q) :
  let y := snd (top_left self) in
  let h := template_h self in
  (0 <= y)%Z -> (0 <= h)%Z ->
  middle_rows self = (y, y + h / 2)%Z
  /\ bottom_rows self = (y + h / 2, y + h)%Z
  /\ middle_obstacle_frame self frame_gray scale_w
     ++ bottom_obstacle_frame self frame_gray scale_w
     = slice2 frame_gray y (y + h)
              (fst (band_cols self scale_w)) (snd (band_cols self scale_w))
  /\ (Z.of_nat (length (middle_obstacle_frame self frame_gray scale_w))
      <= h / 2)%Z.
Proof.
  cbv zeta. intros Hy Hh.
  pose proof (Z.div_pos (template_h self) 2 Hh eq_refl) as Hd.
  assert (template_h self / 2 <= template_h self)%Z
    by (apply Z.div_le_upper_bound; lia).
  assert (Em : middle_rows self
               = (snd (top_left self),
                  (snd (top_left self) + template_h self / 2)%Z)).
  { rewrite middle_rows_eq, py_int_half by assumption. reflexivity. }
  assert (Eb : bottom_rows self
               = ((snd (top_left self) + template_h self / 2)%Z,
                  (snd (top_left self) + template_h self)%Z)).
  { rewrite bottom_rows_eq, py_int_half by assumption. reflexivity. }
  repeat split; try assumption.
  - unfold middle_obstacle_frame, bottom_obstacle_frame, slice2.
    rewrite Em, Eb. cbn [fst snd].
    rewrite <- map_app. f_equal. apply py_slice_app; lia.
  - unfold middle_obstacle_frame, slice2. rewrite Em. cbn [fst snd].
    rewrite length_map, py_slice_length.
    rewrite !py_slice_bound_nonneg by lia. lia.
Qed.



Ltac gesture :=
  unfold is_gesture;
  first [ left; reflexivity
        | right; left; reflexivity
        | right; right; reflexivity ].

Section RunLemmas.
Context `{Collaborators}.



Lemma searching_tick_effect (frame_bgr : bgr_image) (m : machine) :
  let mt := _find_dinosaur (self m) frame_bgr in
  exists m1,
    searching_tick frame_bgr m = (m1, Ok tt)
    /\ character (self m1) = (match_top_left mt, match_h mt, match_w mt)
    /\ (found mt = true ->
        skip_initialize (self m1) = true
        /\ events m1 = events m ++ [Press space]
        /\ last_button_push (self m1) = clock (reads m)
        /\ start_time (self m1) = clock (S (reads m))
        /\ reads m1 = S (S (reads m)))
    /\ (found mt = false ->
        skip_initialize (self m1) = skip_initialize (self m)
        /\ events m1 = events m
        /\ last_button_push (self m1) = last_button_push (self m)
        /\ start_time (self m1) = start_time (self m)
        /\ reads m1 = reads m).
Proof.
  cbv zeta. unfold searching_tick. unfold_M.
  destruct (found _) eqn:E; cbn;
    eexists; (split; [reflexivity|]); cbn; repeat split;
    intros; discriminate.
Qed.

(** One tick: what it adds to the trace, and that it keeps the
    parameters. *)
Lemma tick_gestures (frame_bgr : bgr_image) (m : machine) :
  let m' := fst (tick frame_bgr m) in
  params (self m') = params (self m)
  /\ exists gs, events m' = events m ++ concat gs
                /\ Forall (is_gesture (params (self m))) gs.
Proof.
  cbv zeta. destruct (skip_initialize (self m)) eqn:Hskip.
  - destruct (perceive frame_bgr m) as [m1 [o|e]] eqn:Ep.
    + rewrite (tick_tracking_ok _ _ _ _ Hskip Ep).
      apply perceive_ok in Ep as (Es & Ee & _).
      destruct (select_action_spec o m1)
        as (m2 & Ea & _ & _ & Ep2 & _ & _ & _ & C1 & C2 & C3 & C4).
      destruct (idle_reset_spec (now o) m2)
        as (m3 & Ei & _ & Ep3 & _ & _ & R1 & R2).
      unfold bind. rewrite Ea, Ei. cbn [fst].
      rewrite Es in *. split; [congruence|].
      assert (Hact : exists ga, events m2 = events m ++ concat ga
                       /\ Forall (is_gesture (params (self m))) ga).
      { destruct (is_obstacle_bottom o) eqn:Eb.
        - destruct (Qlt_le_dec (elapsed_time o)
                      (late_game_time (params (self m)))) as [Hl|Hl].
          + destruct (C2 eq_refl Hl) as [Ev _].
            exists [jump_press]. cbn. rewrite Ev, Ee.
            split; [reflexivity|]. constructor; [gesture | constructor].
          + destruct (C1 eq_refl Hl) as [Ev _].
            exists [jump_then_duck (params (self m))]. cbn.
            rewrite Ev, Ee. split; [reflexivity|].
            constructor; [gesture | constructor].
        - destruct (is_obstacle_middle o) eqn:Em.
          + destruct (C3 eq_refl eq_refl) as [Ev _].
            exists [duck_hold (params (self m))]. cbn.
            rewrite Ev, Ee. split; [reflexivity|].
            constructor; [gesture | constructor].
          + rewrite (C4 eq_refl eq_refl). exists []. cbn.
            rewrite app_nil_r. split; [assumption | constructor]. }
      destruct Hact as (ga & Eva & Hga).
      destruct (Qlt_le_dec (idle_reset_time (params (self m2)))
                  (now o - last_button_push (self m2))) as [Hi|Hi].
      * destruct (R1 Hi) as (Ev3 & _).
        exists (ga ++ [jump_press]). rewrite Ev3, Eva, concat_app.
        cbn. rewrite <- app_assoc. split; [reflexivity|].
        apply Forall_app. split; [assumption|].
        constructor; [gesture | constructor].
      * rewrite (R2 Hi). exists ga. split; assumption.
    + rewrite (tick_tracking_raise _ _ _ _ Hskip Ep). cbn [fst].
      apply perceive_raise in Ep as (Es & Ee & _).
      split; [congruence|]. exists []. cbn. rewrite app_nil_r.
      split; [assumption | constructor].
  - rewrite (tick_searching _ _ Hskip).
    destruct (searching_tick_spec frame_bgr m)
      as (m1 & E & _ & Ep & _ & _ & Hf & Hn).
    rewrite E. cbn [fst]. split; [assumption|].
    destruct (found (_find_dinosaur (self m) frame_bgr)).
    + destruct (Hf eq_refl) as [Ev _]. exists [jump_press]. cbn.
      split; [assumption|]. constructor; [gesture | constructor].
    + destruct (Hn eq_refl) as [Ev _]. exists []. cbn.
      rewrite app_nil_r. split; [assumption | constructor].
Qed.

Lemma play_gestures (frames : list bgr_image) :
  forall m,
    let m' := fst (play frames m) in
    params (self m') = params (self m)
    /\ exists gs, events m' = events m ++ concat gs
                  /\ Forall (is_gesture (params (self m))) gs.
Proof.
  induction frames as [|f rest IH]; intro m; cbv zeta.
  - cbn. split; [reflexivity|]. exists []. cbn.
    rewrite app_nil_r. split; [reflexivity | constructor].
  - rewrite play_cons.
    destruct (tick_gestures f m) as (Ep & gs & Ev & Hgs).
    destruct (tick f m) as [m1 [[]|e]]; cbn [fst] in *.
    + destruct (IH m1) as (Ep' & gs' & Ev' & Hgs').
      split; [congruence|].
      exists (gs ++ gs'). rewrite Ev', Ev, concat_app, app_assoc.
      split; [reflexivity|]. apply Forall_app. split; [assumption|].
      now rewrite <- Ep.
    + split; [assumption|]. now exists gs.
Qed.

Lemma keys_down_gestures (p : DinoParams) (gs : list (list event)) :
  Forall (is_gesture p) gs ->
  fold_left key_step (concat gs) (false, false) = (false, false).
Proof.
  induction 1 as [|g gs Hg _ IH]; [reflexivity|].
  cbn [concat]. rewrite fold_left_app.
  destruct Hg as [->|[->| ->]]; cbn; exact IH.
Qed.

End RunLemmas.

Section Runs.
Context `{Collaborators}.





(** X11. Whatever the frames, the keys a run sends form a sequence of the three
    gestures of the bot (a press of space, the jump then duck pair, a held
    duck), with the run's parameters, which it does not change; so a run
    that starts with both keys up ends with both keys up. *)
Theorem play_sends_gestures_only (frames : list bgr_image) (m : machine) :
  let m' := fst (play frames m) in
  params (self m') = params (self m)
  /\ (exists gs, events m' = events m ++ concat gs
                 /\ Forall (is_gesture (params (self m))) gs)
  /\ (keys_down (events m) = (false, false) ->
      keys_down (events m') = (false, false)).
Proof.
  cbv zeta.
  destruct (play_gestures frames m) as (Ep & gs & Ev & Hgs).
  split; [assumption|]. split; [now exists gs|].
  intro Hup. unfold keys_down in *. rewrite Ev, fold_left_app, Hup.
  now apply keys_down_gestures with (p := params (self m)).
Qed.


End Runs.

Section LockOn.
Context `{Collaborators}.

Lemma find_dinosaur_ext (s s' : DinoBot) (frame_bgr : bgr_image) :
  params s' = params s ->
  template_day s' = template_day s ->
  template_night s' = template_night s ->
  _find_dinosaur s' frame_bgr = _find_dinosaur s frame_bgr.
Proof.
  intros Ep Ed En. unfold _find_dinosaur. now rewrite Ep, Ed, En.
Qed.

(** Frames on which nothing is found leave a searching bot searching and
    silent. *)
Lemma play_searching_prefix (pre : list bgr_image) :
  forall (rest : list bgr_image) (m : machine),
    skip_initialize (self m) = false ->
    Forall (fun f => found (_find_dinosaur (self m) f) = false) pre ->
    exists m1,
      play (pre ++ rest) m = play rest m1
      /\ skip_initialize (self m1) = false
      /\ events m1 = events m
      /\ params (self m1) = params (self m)
      /\ template_day (self m1) = template_day (self m)
      /\ template_night (self m1) = template_night (self m).
Proof.
  induction pre as [|f pre IH]; intros rest m Hskip Hall.
  - exists m. repeat split; assumption.
  - inversion Hall as [|? ? Hf Hpre]; subst.
    cbn [app]. rewrite play_cons, (tick_searching _ _ Hskip).
    destruct (searching_tick_spec f m)
      as (m1 & E & _ & Ep & Ed & En & _ & Hn).
    rewrite E. destruct (Hn Hf) as [Ev Es].
    destruct (IH rest m1) as (m2 & E2 & Hs2 & Ev2 & Ep2 & Ed2 & En2).
    + congruence.
    + eapply Forall_impl; [|exact Hpre]. cbn. intros g Hg.
      now rewrite (find_dinosaur_ext (self m) (self m1)).
    + exists m2. repeat split; congruence.
Qed.

(** X13. A run that starts in the searching state sends nothing until the
    character is found, and the first thing it sends is the press of space
    that starts the game. *)
Theorem no_key_before_lock_on (frames : list bgr_image) (m : machine) :
  skip_initialize (self m) = false ->
  let m' := fst (play frames m) in
  (skip_initialize (self m') = false /\ events m' = events m)
  \/ (skip_initialize (self m') = true
      /\ exists rest, events m' = events m ++ Press space :: rest).
Proof.
  revert m. induction frames as [|f frames IH]; intros m Hskip; cbv zeta.
  - left. split; [assumption | reflexivity].
  - rewrite play_cons, (tick_searching _ _ Hskip).
    destruct (searching_tick_spec f m)
      as (m1 & E & _ & _ & _ & _ & Hf & Hn).
    rewrite E.
    destruct (found (_find_dinosaur (self m) f)).
    + destruct (Hf eq_refl) as [Ev Hs1]. right.
      destruct (play_tracking frames m1 Hs1) as (Hs' & _).
      destruct (play_gestures frames m1) as (_ & gs & Ev' & _).
      split; [assumption|]. exists (concat gs).
      rewrite Ev', Ev, <- app_assoc. reflexivity.
    + destruct (Hn eq_refl) as [Ev Hs1].
      destruct (IH m1) as [[Hs' Ev']|[Hs' [rest Ev']]]; [congruence| |].
      * left. split; congruence.
      * right. split; [assumption|]. exists rest. congruence.
Qed.

(** X14. The character used for the whole run is the one matched on the first
    frame whose score reaches the confidence threshold: after any number
    of later frames the cached position and size are still that match. *)
Theorem character_is_first_match (pre post : list bgr_image)
    (frame_bgr : bgr_image) (m : machine) :
  skip_initialize (self m) = false ->
  Forall (fun f => found (_find_dinosaur (self m) f) = false) pre ->
  found (_find_dinosaur (self m) frame_bgr) = true ->
  let mt := _find_dinosaur (self m) frame_bgr in
  let m' := fst (play (pre ++ frame_bgr :: post) m) in
  skip_initialize (self m') = true
  /\ character (self m') = (match_top_left mt, match_h mt, match_w mt).
Proof.
  intros Hskip Hall Hf. cbv zeta.
  destruct (play_searching_prefix pre (frame_bgr :: post) m Hskip Hall)
    as (m1 & -> & Hs1 & _ & Ep & Ed & En).
  rewrite play_cons, (tick_searching _ _ Hs1).
  destruct (searching_tick_effect frame_bgr m1) as (m2 & E & Ec & Hfound & _).
  rewrite E.
  rewrite (find_dinosaur_ext (self m) (self m1)) in Ec, Hfound by assumption.
  destruct (Hfound Hf) as (Hs2 & _).
  destruct (play_tracking post m2 Hs2) as (Hs' & Hc' & _).
  split; [assumption | congruence].
Qed.

End LockOn.


Module ChromeFacts.

Import Ascii String Chrome.
Local Open Scope string_scope.

Lemma prefix_cons_inv (c : ascii) (a h : string) :
  prefix (String c a) h = true ->
  exists h', h = String c h' /\ prefix a h' = true.
Proof.
  destruct h as [|d h']; cbn; [discriminate|].
  destruct (ascii_dec c d) as [->|]; [|discriminate].
  intro E. now exists h'.
Qed.

Lemma contains_of_prefix (needle hay : string) :
  prefix needle hay = true -> contains needle hay = true.
Proof. intro E. destruct hay; cbn [contains]; now rewrite E. Qed.

Lemma contains_skip (needle : string) (c : ascii) (hay : string) :
  contains needle hay = true -> contains needle (String c hay) = true.
Proof.
  intro E. cbn [contains]. destruct (prefix needle (String c hay)); auto.
Qed.

Lemma darwin_contains_win (hay : string) :
  contains "darwin" hay = true -> contains "win" hay = true.
Proof.
  induction hay as [|c rest IH].
  - cbn. discriminate.
  - intro Hc. cbn [contains] in Hc.
    destruct (prefix "darwin" (String c rest)) eqn:E.
    + apply prefix_cons_inv in E as (h1 & E1 & P1).
      apply prefix_cons_inv in P1 as (h2 & E2 & P2).
      apply prefix_cons_inv in P2 as (h3 & E3 & P3).
      rewrite E1, E2, E3.
      do 3 apply contains_skip. now apply contains_of_prefix.
    + apply contains_skip. auto.
Qed.

(** X16. The macOS branch of [open_chrome] cannot be taken: a system name that
    contains darwin contains win, which is tested first, so it gets the
    Windows command; the name of macOS itself does. *)
Theorem darwin_is_taken_for_windows (system : string) :
  guess_app_path system <> Some mac_command
  /\ (contains "darwin" (lower system) = true ->
      guess_app_path system = Some windows_command)
  /\ guess_app_path "Darwin" = Some windows_command.
Proof.
  unfold guess_app_path. repeat split.
  - destruct (contains "win" (lower system)) eqn:Ew; [discriminate|].
    destruct (contains "darwin" (lower system)) eqn:Ed.
    + apply darwin_contains_win in Ed. congruence.
    + destruct (contains "linux" (lower system)); discriminate.
  - intro Ed. apply darwin_contains_win in Ed. now rewrite Ed.
Qed.


End ChromeFacts.

(** * The further properties on the sample data *)

Lemma get_dynamic_scale_w_raises_iff_witness :
  exists e,
    _get_dynamic_scale_w
      {| confidence_threshold := 8 # 10; day_threshold := 5 # 10;
         obstacle_min_contrast := 1 # 10; obstacle_max_contrast := 9 # 10;
         late_game_time := 0; idle_reset_time := 7; duck_time := 4 # 10;
         post_jump_duck_sleep := 2 # 100; init_scale_w := 15 # 10;
         late_scale_w := 4 |} (- (1)) = Raise e.
Proof.
  apply get_dynamic_scale_w_raises_iff. split; [reflexivity | reflexivity].
Defined.

Lemma is_day_scene_edges_witness :
  _is_day_scene (Sample.bot_at 0 2 2 2)
    (map (map Sample.gray_of) Sample.clear_frame) = Ok true.
Proof.
  destruct (is_day_scene_edges (Sample.bot_at 0 2 2 2)
              (map (map Sample.gray_of) Sample.clear_frame))
    as (_ & _ & _ & W).
  apply W.
  - simpl. lra.
  - vm_compute. discriminate.
  - vm_compute. reflexivity.
Defined.

Lemma new_size_follows_screen_witness :
  new_width 1920 Sample.strip = 5%Z
  /\ (new_width 960 Sample.strip <= new_width 1440 Sample.strip)%Z
  /\ (new_width 1440 Sample.strip <= 5)%Z.
Proof.
  destruct (new_size_follows_screen Sample.strip)
    as (Hid & _ & Hmono & _ & Hle & _).
  split; [|split].
  - apply Hid. reflexivity.
  - apply Hmono. lia.
  - apply (Hle 1440%Z); [reflexivity | lia].
Defined.

Lemma find_dinosaur_best_match_witness :
  exists t,
    loaded (Sample.bot default_params false 0 0) t
    /\ match_h (@_find_dinosaur (Sample.collaborators 0)
                  (Sample.bot default_params false 0 0) Sample.clear_frame)
       = shape0 t.
Proof.
  destruct (@find_dinosaur_best_match (Sample.collaborators 0)
              (Sample.bot default_params false 0 0) Sample.clear_frame)
    as (_ & _ & _ & _ & _ & W).
  destruct W as (t & Hl & _ & Hh & _).
  - simpl. lra.
  - vm_compute. reflexivity.
  - exists t. split; assumption.
Defined.

Lemma find_dinosaur_prefers_night_witness :
  match_h (@_find_dinosaur (Sample.collaborators 0)
             More.two_template_bot Sample.clear_frame)
  = shape0 Sample.template.
Proof.
  destruct (@find_dinosaur_prefers_night (Sample.collaborators 0)
              More.two_template_bot Sample.clear_frame
              Sample.template Sample.strip eq_refl eq_refl)
    as (W & _).
  - vm_compute. reflexivity.
  - apply W. vm_compute. discriminate.
Defined.

Lemma bands_tile_character_rows_witness :
  middle_obstacle_frame (Sample.bot_at 0 2 2 2)
    (map (map Sample.gray_of) Sample.bird_frame) 4
  ++ bottom_obstacle_frame (Sample.bot_at 0 2 2 2)
       (map (map Sample.gray_of) Sample.bird_frame) 4
  = slice2 (map (map Sample.gray_of) Sample.bird_frame) 2 4 6 8.
Proof.
  destruct (bands_tile_character_rows (Sample.bot_at 0 2 2 2)
              (map (map Sample.gray_of) Sample.bird_frame) 4)
    as (_ & _ & W & _); [simpl; lia | simpl; lia |].
  exact W.
Defined.


Lemma contrasts_are_shares_of_bright_pixels_witness :
  let s := Sample.bot_at 0 2 2 2 in
  let frame_gray := map (map Sample.gray_of) Sample.bird_frame in
  _compute_contrasts
    [fst (@_threshold_obstacle_frames (Sample.collaborators 0)
            s frame_gray true 4);
     snd (@_threshold_obstacle_frames (Sample.collaborators 0)
            s frame_gray true 4)]
  = Ok [share_above 180 (middle_obstacle_frame s frame_gray 4);
        share_above 180 (bottom_obstacle_frame s frame_gray 4)]
  /\ share_above 180 (middle_obstacle_frame s frame_gray 4) == 1 # 2.
Proof.
  cbv zeta. split; [|vm_compute; reflexivity].
  apply (@contrasts_are_shares_of_bright_pixels (Sample.collaborators 0)
           (Sample.bot_at 0 2 2 2)
           (map (map Sample.gray_of) Sample.bird_frame) true 4);
    vm_compute; discriminate.
Defined.


Lemma play_sends_gestures_only_witness :
  keys_down
    (events
       (fst (@play (Sample.collaborators 40)
               [Sample.cactus_frame; Sample.bird_frame; Sample.clear_frame]
               (Sample.machine_of (Sample.bot default_params true 40 0)))))
  = (false, false).
Proof.
  destruct (@play_sends_gestures_only (Sample.collaborators 40)
              [Sample.cactus_frame; Sample.bird_frame; Sample.clear_frame]
              (Sample.machine_of (Sample.bot default_params true 40 0)))
    as (_ & _ & W).
  apply W. reflexivity.
Defined.


Lemma no_key_before_lock_on_witness :
  exists rest,
    events
      (fst (@play (Sample.collaborators 0)
              [More.blank_frame; Sample.clear_frame; Sample.cactus_frame]
              (Sample.machine_of (Sample.bot default_params false 0 0))))
    = Press space :: rest.
Proof.
  destruct (@no_key_before_lock_on (Sample.collaborators 0)
              [More.blank_frame; Sample.clear_frame; Sample.cactus_frame]
              (Sample.machine_of (Sample.bot default_params false 0 0))
              eq_refl) as [[Hs _]|[_ W]].
  - vm_compute in Hs. discriminate.
  - exact W.
Defined.

Lemma character_is_first_match_witness :
  character
    (self
       (fst (@play (Sample.collaborators 0)
               ([More.blank_frame]
                ++ Sample.clear_frame :: [Sample.cactus_frame])
               (Sample.machine_of (Sample.bot default_params false 0 0)))))
  = ((0, 2), 2, 2)%Z.
Proof.
  destruct (@character_is_first_match (Sample.collaborators 0)
              [More.blank_frame] [Sample.cactus_frame] Sample.clear_frame
              (Sample.machine_of (Sample.bot default_params false 0 0))
              eq_refl) as (_ & W).
  - repeat constructor.
  - vm_compute. reflexivity.
  - exact W.
Defined.


Module ChromeWitnesses.

Import Ascii String Chrome.
Local Open Scope string_scope.

Lemma darwin_is_taken_for_windows_witness :
  guess_app_path "Darwin" = Some windows_command.
Proof.
  destruct (ChromeFacts.darwin_is_taken_for_windows "Darwin")
    as (_ & W & _).
  apply W. reflexivity.
Defined.


End ChromeWitnesses.
